(** * Loggy: an asynchronous, multi-sink logger (Logger.h)

    A shallow embedding of [Logger.h] and the properties of its queue,
    its sinks ([Output]) and its registry ([Log]).

    Conventions of the embedding
    - [int], [size_t] and [time_t] values are integers of [Z]; the unsigned
      wrap-around of [size_t] is written out with [wrap_size_t].
    - [string] and [wstring] are both [string]; inserting a narrow string
      into a wide stream widens it character by character.
    - [difftime (a, b) > c] on whole seconds is [a - b > c].
    - The C library ([time], [localtime_r], [strftime]) is an interface,
      [Libc]; the value read by a call of [time (&t)] is an argument [now]
      of the function that makes the call.
    - A blocking call ([pop] and [join] waiting on the condition variable)
      is a partial function: [None] means that the caller cannot proceed in
      this state.
    - Threads are interleaved at the granularity of one shared access per
      step, see [Sink]. *)

From Stdlib Require Import ZArith String Ascii DecimalString Lia.
From stdpp Require Import base option list gmap strings.

Local Open Scope Z_scope.

(** ** Integers and text *)

(** [size_t] of the LP64 targets the header builds on. *)
Definition SIZE_MAX : Z := 2 ^ 64 - 1.

Definition wrap_size_t (z : Z) : Z := z mod (SIZE_MAX + 1).

(** [wostream << int] and [wostream << size_t] in the classic locale. *)
Definition decimal (z : Z) : string := NilZero.string_of_int (Z.to_int z).

(** [T()], the value-initialised element a quit queue hands out. *)
Class DefaultConstructible (T : Type) := value_init : T.

#[export] Instance wstring_default : DefaultConstructible string := EmptyString.

(** The part of the C library the header calls. *)
Class Libc := {
  struct_tm : Type;
  localtime_r : Z -> struct_tm;
  (** the text [strftime] leaves in the 120 byte buffer *)
  strftime : string -> struct_tm -> string;
}.

(** ** Constants and levels *)

Definition DEFAULT_BUF_CNT : Z := 1000.
Definition DEFAULT_TIME_FMT : string := "%Y%m%d.%H%M%S".
Definition DROP_NOTIFY_SECONDS : Z := 5.
Definition FLUSH_SECONDS : Z := 1.

Definition LINVALID : Z := 0.
Definition LTRACE : Z := 9.
Definition LDEBUG : Z := 10.
Definition LINFO : Z := 20.
Definition LERROR : Z := 40.
Definition LWARN : Z := 30.
Definition LCRITICAL : Z := 50.
Definition LMAX : Z := 50.

Definition levelNames_ : gmap Z string :=
  list_to_map
    [ (LINVALID, "INVALID"%string);
      (LTRACE, "TRACE"%string);
      (LDEBUG, "DEBUG"%string);
      (LINFO, "INFO"%string);
      (LERROR, "ERROR"%string);
      (LWARN, "WARN"%string);
      (LCRITICAL, "CRITICAL"%string) ].

(** [timestamp (format, rawtime)] *)
Definition timestamp `{Libc} (format : string) (rawtime : Z) : string :=
  strftime format (localtime_r rawtime).

(** ** SafeQueue<T> *)

Module SafeQueue.

Record t (T : Type) := mk {
  q : list T;   (* front of the queue first *)
  x : bool;
}.
Arguments mk {T} _ _.
Arguments q {T} _.
Arguments x {T} _.

Section Ops.
Context {T : Type} `{DefaultConstructible T}.

Definition init : t T := mk [] false.

Definition push (v : T) (s : t T) : t T := mk (q s ++ [v]) (x s).

(** [while (!x && q.empty ()) c.wait (lock)] lets the caller through
    when [x] is set or an element is there; [if (x) return T ()] comes
    before the front element is looked at. *)
Definition pop (s : t T) : option (T * t T) :=
  if x s then Some (value_init, s)
  else match q s with
       | [] => None
       | val :: rest => Some (val, mk rest (x s))
       end.

Definition size (s : t T) : Z := Z.of_nat (length (q s)).

Definition join (s : t T) : option (t T) :=
  match q s with
  | [] => Some s
  | _ :: _ => None
  end.

Definition drain (s : t T) : Z * t T := (size s, mk [] (x s)).

(** [x = true], the first statement of [quit], made outside the lock. *)
Definition set_x (s : t T) : t T := mk (q s) true.

Definition quit (s : t T) : Z * t T := drain (set_x s).

(** The calls a client can make, and what each hands back. *)
Inductive call :=
| Push (v : T)
| Pop
| Size
| Join
| Drain
| Quit.

Inductive answer :=
| Unit
| Popped (v : T)
| Count (n : Z).

Definition perform (c : call) (s : t T) : option (answer * t T) :=
  match c with
  | Push v => Some (Unit, push v s)
  | Pop => '(v, s') ← pop s; Some (Popped v, s')
  | Size => Some (Count (size s), s)
  | Join => s' ← join s; Some (Unit, s')
  | Drain => let '(n, s') := drain s in Some (Count n, s')
  | Quit => let '(n, s') := quit s in Some (Count n, s')
  end.

(** A history: the calls made one after the other with their answers;
    [None] when one of them would wait for ever. *)
Fixpoint history (cs : list call) (s : t T)
  : option (list (call * answer) * t T) :=
  match cs with
  | [] => Some ([], s)
  | c :: cs' =>
      '(a, s') ← perform c s;
      '(h, s'') ← history cs' s';
      Some ((c, a) :: h, s'')
  end.

End Ops.

Arguments call : clear implicits.
Arguments answer : clear implicits.

End SafeQueue.

(** ** Output: one sink, its queue and its destination *)

Module Output.

(** What [wstream_] refers to: a stream of the caller, or [fstream_]
    opened to append to a path. *)
Inductive destination :=
| Stream (handle : string)
| File (path : string).

Record t := mk {
  queue_ : SafeQueue.t string;
  dest : destination;
  wstream_ : list string;   (* the lines inserted so far, oldest first *)
  max_ : Z;
  level_ : Z;
  dropped_ : Z;
  alive_ : bool;
  firstDrop_ : Z;
}.

Definition set_queue (o : t) (qu : SafeQueue.t string) : t :=
  mk qu (dest o) (wstream_ o) (max_ o) (level_ o) (dropped_ o) (alive_ o)
     (firstDrop_ o).

Definition set_wstream (o : t) (w : list string) : t :=
  mk (queue_ o) (dest o) w (max_ o) (level_ o) (dropped_ o) (alive_ o)
     (firstDrop_ o).

Definition set_level (o : t) (l : Z) : t :=
  mk (queue_ o) (dest o) (wstream_ o) (max_ o) l (dropped_ o) (alive_ o)
     (firstDrop_ o).

Definition set_dropped (o : t) (d : Z) : t :=
  mk (queue_ o) (dest o) (wstream_ o) (max_ o) (level_ o) d (alive_ o)
     (firstDrop_ o).

Definition set_alive (o : t) (a : bool) : t :=
  mk (queue_ o) (dest o) (wstream_ o) (max_ o) (level_ o) (dropped_ o) a
     (firstDrop_ o).

Definition set_firstDrop (o : t) (f : Z) : t :=
  mk (queue_ o) (dest o) (wstream_ o) (max_ o) (level_ o) (dropped_ o)
     (alive_ o) f.

(** Both constructors; [max] arrives as an [int] and is stored in a
    [size_t]. *)
Definition make (d : destination) (level max : Z) : t :=
  mk SafeQueue.init d [] (wrap_size_t max) level 0 true 0.

Section WithLibc.
Context `{Libc}.

(** The text [logDropped] pushes. *)
Definition dropped_line (now dropped : Z) : string :=
  timestamp DEFAULT_TIME_FMT now +:+ " dropped " +:+ decimal dropped
    +:+ " entries".

Definition logDropped (now : Z) (o : t) : t :=
  let o1 := set_queue o
              (SafeQueue.push (dropped_line now (dropped_ o)) (queue_ o)) in
  set_dropped o1 0.

Definition add (now : Z) (str : string) (t0 : Z) (o : t) : t :=
  if alive_ o then
    if (max_ o =? 0) || (SafeQueue.size (queue_ o) <? max_ o) then
      set_queue o (SafeQueue.push str (queue_ o))
    else
      let o1 := set_dropped o (wrap_size_t (dropped_ o + 1)) in
      if dropped_ o1 =? 1 then set_firstDrop o1 t0
      else if t0 - firstDrop_ o1 >? DROP_NOTIFY_SECONDS then logDropped now o1
      else o1
  else o.

End WithLibc.

End Output.

(** ** The threads of a sink

    [Output::worker] runs on [thread_] from construction on; [~Output]
    runs on the thread that destroys the sink; producers call [add].  One
    step is one access to the shared members ([alive_], [queue_],
    [wstream_]); what a thread does to its own locals rides along.  The
    test [if (alive_)] of the worker and the insertion it guards are two
    steps: the destructor can come in between. *)

Module Sink.

Inductive worker_pc :=
| WTest                 (* at [while (alive_)] *)
| WPop                  (* at [queue_.pop ()] *)
| WWrite (v : string)   (* at [if (alive_)], holding the popped value *)
| WInsert (v : string)  (* past the test, at [wstream_ << t << std::endl] *)
| WDone.                (* [worker] has returned *)

Record worker := mk_worker {
  pc : worker_pc;
  written : Z;
  lastFlush : Z;
}.

Inductive dtor_pc :=
| AtAlive       (* not destroyed yet; next: [alive_ = false] *)
| AtQuit        (* next: [x = true] of [queue_.quit ()] *)
| AtDrain       (* next: [drain ()] and [dropped_ += ...] *)
| AtLog         (* next: [if (dropped_) logDropped ()] *)
| AtJoin        (* next: [thread_.join ()] *)
| Destroyed.

Record state := mk_state {
  out : Output.t;
  wk : worker;
  dt : dtor_pc;
}.

Inductive event :=
| Worker (now : Z)
| Dtor (now : Z)
| Add (now : Z) (str : string) (t0 : Z).

(** A sink as its constructor leaves it. *)
Definition start (o : Output.t) : state :=
  mk_state o (mk_worker WTest 0 0) AtAlive.

Section WithLibc.
Context `{Libc}.

(** [wstream_.flush ()] leaves the inserted lines as they are: every line
    was already flushed by its [std::endl]. *)
Definition worker_step (now : Z) (o : Output.t) (w : worker)
  : option (Output.t * worker) :=
  match pc w with
  | WTest =>
      if Output.alive_ o then
        if (SafeQueue.size (Output.queue_ o) =? 0) && (written w >? 0) then
          if now - lastFlush w >? FLUSH_SECONDS
          then Some (o, mk_worker WPop 0 now)
          else Some (o, mk_worker WPop (written w) (lastFlush w))
        else Some (o, mk_worker WPop (written w) (lastFlush w))
      else Some (o, mk_worker WDone (written w) (lastFlush w))
  | WPop =>
      '(v, qu) ← SafeQueue.pop (Output.queue_ o);
      Some (Output.set_queue o qu, mk_worker (WWrite v) (written w) (lastFlush w))
  | WWrite v =>
      if Output.alive_ o
      then Some (o, mk_worker (WInsert v) (written w) (lastFlush w))
      else Some (o, mk_worker WTest (written w) (lastFlush w))
  | WInsert v =>
      Some (Output.set_wstream o (Output.wstream_ o ++ [v]),
            mk_worker WTest (written w + 1) (lastFlush w))
  | WDone => None
  end.

Definition dtor_step (now : Z) (o : Output.t) (w : worker) (d : dtor_pc)
  : option (Output.t * dtor_pc) :=
  match d with
  | AtAlive => Some (Output.set_alive o false, AtQuit)
  | AtQuit =>
      Some (Output.set_queue o (SafeQueue.set_x (Output.queue_ o)), AtDrain)
  | AtDrain =>
      let '(n, qu) := SafeQueue.drain (Output.queue_ o) in
      Some (Output.set_dropped (Output.set_queue o qu)
              (wrap_size_t (Output.dropped_ o + n)), AtLog)
  | AtLog =>
      if Output.dropped_ o =? 0 then Some (o, AtJoin)
      else Some (Output.logDropped now o, AtJoin)
  | AtJoin =>
      match pc w with
      | WDone => Some (o, Destroyed)
      | _ => None
      end
  | Destroyed => None
  end.

Definition step (e : event) (s : state) : option state :=
  match e with
  | Worker now =>
      '(o, w) ← worker_step now (out s) (wk s); Some (mk_state o w (dt s))
  | Dtor now =>
      '(o, d) ← dtor_step now (out s) (wk s) (dt s); Some (mk_state o (wk s) d)
  | Add now str t0 =>
      Some (mk_state (Output.add now str t0 (out s)) (wk s) (dt s))
  end.

(** A run: the events in the order they happen; [None] when one of them
    is not possible where it stands. *)
Fixpoint exec (es : list event) (s : state) : option state :=
  match es with
  | [] => Some s
  | e :: es' => s' ← step e s; exec es' s'
  end.

(** What holds of the flags at each point of the destructor. *)
Definition consistent (s : state) : Prop :=
  match dt s with
  | AtAlive => True
  | AtQuit => Output.alive_ (out s) = false
  | _ => Output.alive_ (out s) = false
         /\ SafeQueue.x (Output.queue_ (out s)) = true
  end.

End WithLibc.

End Sink.

(** ** Log: the registry *)

Module Log.

(** The [thread_local] record of the calling thread. *)
Record LastLog := mk_ll {
  ws : string;
  tm : Z;
}.

Record t := mk {
  level_ : Z;
  trigFrom_ : Z;
  trigTo_ : Z;
  trigCnt_ : Z;
  timeFormat_ : string;
  outputs_ : list Output.t;
  default_output_ : Output.t;
  buffer_ : list string;
  names : gmap Z string;   (* the global [levelNames_] as it is now *)
  ll_ : LastLog;
}.

Definition set_outputs (l : t) (os : list Output.t) : t :=
  mk (level_ l) (trigFrom_ l) (trigTo_ l) (trigCnt_ l) (timeFormat_ l) os
     (default_output_ l) (buffer_ l) (names l) (ll_ l).

Definition set_default_output (l : t) (o : Output.t) : t :=
  mk (level_ l) (trigFrom_ l) (trigTo_ l) (trigCnt_ l) (timeFormat_ l)
     (outputs_ l) o (buffer_ l) (names l) (ll_ l).

Definition set_names_ll (l : t) (n : gmap Z string) (r : LastLog) : t :=
  mk (level_ l) (trigFrom_ l) (trigTo_ l) (trigCnt_ l) (timeFormat_ l)
     (outputs_ l) (default_output_ l) (buffer_ l) n r.

(** [Log ()] with the member initialisers. *)
Definition init : t :=
  mk LINFO LINVALID LINVALID LINVALID DEFAULT_TIME_FMT []
     (Output.make (Output.Stream "wcout") LINFO 1) [] levelNames_
     (mk_ll EmptyString 0).

Definition isLevel (level : Z) (l : t) : bool := level >=? level_ l.

Definition resetOutput (l : t) : t := set_outputs l [].

Definition addOutput (d : Output.destination) (level bufferSize : Z) (l : t)
  : t :=
  set_outputs l (outputs_ l ++ [Output.make d level bufferSize]).

Definition setTrigger (levelFrom levelTo lookbackCount : Z) (l : t) : t :=
  mk (level_ l) levelFrom levelTo lookbackCount (timeFormat_ l) (outputs_ l)
     (default_output_ l) (buffer_ l) (names l) (ll_ l).

Definition setLevel (level : Z) (l : t) : t :=
  mk level (trigFrom_ l) (trigTo_ l) (trigCnt_ l) (timeFormat_ l) (outputs_ l)
     (default_output_ l) (buffer_ l) (names l) (ll_ l).

(** [strrchr (s, c)]: the part of [s] that starts at the last [c]. *)
Fixpoint strrchr (s : string) (c : ascii) : option string :=
  match s with
  | EmptyString => None
  | String a r =>
      match strrchr r c with
      | Some p => Some p
      | None => if Ascii.eqb a c then Some s else None
      end
  end.

(** [p + 1] for a pointer into a string. *)
Definition next (p : string) : string :=
  match p with
  | EmptyString => EmptyString
  | String _ r => r
  end.

Definition basename (file : string) : string :=
  let b := strrchr file "\" in
  let b := match b with
           | None => strrchr file "/"
           | Some _ => b
           end in
  match b with
  | Some p => next p
  | None => file
  end.

(** [levelNames_[level]]: [operator[]] of [unordered_map] puts an empty
    string under a key it does not find. *)
Definition levelname (n : gmap Z string) (level : Z) : string * gmap Z string :=
  match n !! level with
  | Some name => (name, n)
  | None => (EmptyString, <[level := EmptyString]> n)
  end.

(** The places [queue] hands the record to, in the order of the calls. *)
Inductive target :=
| Default
| Configured (i : nat).

Section WithLibc.
Context `{Libc}.

Definition writer (now : Z) (level : Z) (file : string) (line : Z) (l : t) : t :=
  let '(name, n) := levelname (names l) level in
  set_names_ll l n
    (mk_ll (timestamp (timeFormat_ l) now +:+ " " +:+ basename file +:+ ":"
              +:+ decimal line +:+ " " +:+ name +:+ " ")
           now).

(** [... << msg] on the stream [writer] returns. *)
Definition insert (msg : string) (l : t) : t :=
  set_names_ll l (names l) (mk_ll (ws (ll_ l) +:+ msg) (tm (ll_ l))).

(** [for (auto& out : outputs_) out.add (s, ll.tm)], at position [i] of
    the deque; [clock i] is what [time] reads while sink [i] is served. *)
Fixpoint fan_out (clock : nat -> Z) (s : string) (t0 : Z) (i : nat)
    (outs : list Output.t) : list Output.t * list target :=
  match outs with
  | [] => ([], [])
  | o :: rest =>
      let o' := Output.add (clock i) s t0 o in
      let '(rest', calls) := fan_out clock s t0 (S i) rest in
      (o' :: rest', Configured i :: calls)
  end.

Definition queue (clock : nat -> Z) (l : t) : t * list target :=
  let s := ws (ll_ l) in
  match outputs_ l with
  | [] =>
      (set_default_output l
         (Output.add (clock 0%nat) s (tm (ll_ l)) (default_output_ l)),
       [Default])
  | _ :: _ =>
      let '(outs, calls) := fan_out clock s (tm (ll_ l)) 0 (outputs_ l) in
      (set_outputs l outs, calls)
  end.

(** The macro [LOGL (level, msg)] at [file]:[line]. *)
Definition LOGL (now : Z) (clock : nat -> Z) (level : Z) (file : string)
    (line : Z) (msg : string) (l : t) : t * list target :=
  if isLevel level l then
    queue clock (insert msg (writer now level file line l))
  else (l, []).

End WithLibc.

End Log.

(** A C library for running the model on examples: local time is the
    epoch time and every format prints it in seconds. *)
Definition epoch_libc : Libc :=
  {| struct_tm := Z; localtime_r := fun t => t; strftime := fun _ t => decimal t |}.

(** * Vocabulary of the statements *)

Section QueueVocabulary.
Context {T : Type} `{DefaultConstructible T}.

(** A pop that was answered with [T ()]. *)
Definition sentinel_answer (ca : SafeQueue.call T * SafeQueue.answer T) : Prop :=
  fst ca = SafeQueue.Pop -> snd ca = SafeQueue.Popped value_init.

(** The elements a list of calls pushes, in order. *)
Definition pushed (cs : list (SafeQueue.call T)) : list T :=
  flat_map (fun c => match c with SafeQueue.Push v => [v] | _ => [] end) cs.

Definition removes (c : SafeQueue.call T) : bool :=
  match c with
  | SafeQueue.Drain | SafeQueue.Quit => true
  | _ => false
  end.

Definition waits (c : SafeQueue.call T) : bool :=
  match c with
  | SafeQueue.Join => true
  | _ => false
  end.

End QueueVocabulary.

(** The record the worker is bound to write: it has passed the test
    [if (alive_)] with it and has not inserted it yet. *)
Definition committed (p : Sink.worker_pc) : list string :=
  match p with
  | Sink.WInsert v => [v]
  | _ => []
  end.

(** The steps that let the worker return once [alive_] is down and [x]
    is up, from where it stands. *)
Definition finish (p : Sink.worker_pc) : list Sink.event :=
  match p with
  | Sink.WTest => [Sink.Worker 0]
  | Sink.WPop => [Sink.Worker 0; Sink.Worker 0; Sink.Worker 0]
  | Sink.WWrite _ => [Sink.Worker 0; Sink.Worker 0]
  | Sink.WInsert _ => [Sink.Worker 0; Sink.Worker 0]
  | Sink.WDone => []
  end.

(** [~Output] run in one go, the worker getting its turn at the join. *)
Definition teardown (now : Z) (s : Sink.state) : list Sink.event :=
  [Sink.Dtor now; Sink.Dtor now; Sink.Dtor now; Sink.Dtor now]
    ++ finish (Sink.pc (Sink.wk s)) ++ [Sink.Dtor now].

Definition is_add (e : Sink.event) : bool :=
  match e with
  | Sink.Add _ _ _ => true
  | _ => false
  end.

(** C2 as the specification words it: whatever the threads do, when the
    destructor of a sink is through, the records that were pending are in
    the destination. *)
Definition writes_pending_on_destruction : Prop :=
  forall (L : Libc) (o : Output.t) (es : list Sink.event) (s' : Sink.state),
    Output.alive_ o = true ->
    SafeQueue.x (Output.queue_ o) = false ->
    forallb (fun e => negb (is_add e)) es = true ->
    Sink.exec es (Sink.start o) = Some s' ->
    Sink.dt s' = Sink.Destroyed ->
    Output.wstream_ (Sink.out s')
    = Output.wstream_ o ++ SafeQueue.q (Output.queue_ o).

(** A sink on which five records were pushed and none written yet. *)
Definition five_pending : Output.t :=
  fold_left (fun o r => Output.add (H := epoch_libc) 0 r 0 o)
    ["r1"; "r2"; "r3"; "r4"; "r5"]%string
    (Output.make (Output.File "app.log") LDEBUG DEFAULT_BUF_CNT).

(** One call of [add]: what [time] reads during it, the record, and the
    time stamp of the record. *)
Record add_call := mk_add {
  clock_of : Z;
  text_of : string;
  stamp_of : Z;
}.

(** The calls made one after the other, nothing being taken from the
    queue in between. *)
Definition add_all `{Libc} (rs : list add_call) (o : Output.t) : Output.t :=
  fold_left (fun o r => Output.add (clock_of r) (text_of r) (stamp_of r) o) rs o.



(** A sink that takes no more: alive, bounded and full. *)
Definition full (o : Output.t) : Prop :=
  Output.alive_ o = true
  /\ 0 < Output.max_ o <= SafeQueue.size (Output.queue_ o)
  /\ 0 <= Output.dropped_ o.


(** [c] occurs in [s]. *)
Fixpoint mem (c : ascii) (s : string) : bool :=
  match s with
  | EmptyString => false
  | String a r => Ascii.eqb a c || mem c r
  end.

Definition is_separator (a : ascii) : bool :=
  Ascii.eqb a "/" || Ascii.eqb a "\".

(** The part of [s] behind its last path separator, if it has one. *)
Fixpoint last_separator (s : string) : option string :=
  match s with
  | EmptyString => None
  | String a r =>
      match last_separator r with
      | Some p => Some p
      | None => if is_separator a then Some r else None
      end
  end.

(** The base name in the words of the specification: everything up to
    the last path separator is stripped. *)
Definition after_last_separator (s : string) : string :=
  match last_separator s with
  | Some p => p
  | None => s
  end.

(** C8 as the specification words it. *)
Definition prefix_with_last_component : Prop :=
  forall (L : Libc) (now level : Z) (file : string) (line : Z) (l : Log.t),
    Log.ws (Log.ll_ (Log.writer now level file line l))
    = timestamp (Log.timeFormat_ l) now +:+ " " +:+ after_last_separator file
        +:+ ":" +:+ decimal line +:+ " "
        +:+ fst (Log.levelname (Log.names l) level) +:+ " ".

(** The levels that have a name. *)
Definition defined_levels : list Z :=
  [LINVALID; LTRACE; LDEBUG; LINFO; LERROR; LWARN; LCRITICAL].

(** C5 as the specification words it: a level without a name gets a
    placeholder, a text such as "INVALID" that stands where the name would:
    at the least it is not empty. *)
Definition unknown_level_gets_placeholder : Prop :=
  forall level : Z,
    ~ In level defined_levels ->
    fst (Log.levelname levelNames_ level) <> EmptyString.

(** C1 as the specification words it: a record that [LOGL] puts into the
    queue of a sink is at or above the threshold of that sink and at or
    above the global one. *)
Definition sink_threshold_filters : Prop :=
  forall (L : Libc) (now : Z) (clock : nat -> Z) (level : Z) (file : string)
         (line : Z) (msg : string) (l : Log.t) (i : nat) (o o' : Output.t),
    Log.outputs_ l !! i = Some o ->
    Log.outputs_ (fst (Log.LOGL now clock level file line msg l)) !! i = Some o' ->
    Output.queue_ o' <> Output.queue_ o ->
    level >= Output.level_ o /\ level >= Log.level_ l.

(** A registry at level DEBUG with one sink at level INFO. *)
Definition debug_registry : Log.t :=
  Log.addOutput (Output.File "app.log") LINFO DEFAULT_BUF_CNT
    (Log.setLevel LDEBUG Log.init).

(** A sink whose destructor has counted five drops and is about to log
    them. *)
Definition about_to_log : Sink.state :=
  Sink.mk_state
    (Output.mk (SafeQueue.mk [] true) (Output.File "app.log") ["r0"%string]
       1000 LDEBUG 5 false 0)
    (Sink.mk_worker Sink.WPop 1 0) Sink.AtLog.

(** * The rest of the header *)

(** ** The macros *)

Module Macros.

Section WithLibc.
Context `{Libc}.

Definition LOGT (now : Z) (clock : nat -> Z) (file : string) (line : Z)
    (msg : string) (l : Log.t) : Log.t * list Log.target :=
  Log.LOGL now clock LTRACE file line msg l.

Definition LOGD (now : Z) (clock : nat -> Z) (file : string) (line : Z)
    (msg : string) (l : Log.t) : Log.t * list Log.target :=
  Log.LOGL now clock LDEBUG file line msg l.

Definition LOGI (now : Z) (clock : nat -> Z) (file : string) (line : Z)
    (msg : string) (l : Log.t) : Log.t * list Log.target :=
  Log.LOGL now clock LINFO file line msg l.

Definition LOGE (now : Z) (clock : nat -> Z) (file : string) (line : Z)
    (msg : string) (l : Log.t) : Log.t * list Log.target :=
  Log.LOGL now clock LERROR file line msg l.

End WithLibc.

End Macros.

(** ** Vocabulary of the further statements *)

(** The record the worker has popped and not yet written. *)
Definition held (p : Sink.worker_pc) : list string :=
  match p with
  | Sink.WWrite v | Sink.WInsert v => [v]
  | _ => []
  end.

(** The lines of a sink from the oldest on: written, in the hand of the
    worker, queued. *)
Definition in_flight (s : Sink.state) : list string :=
  Output.wstream_ (Sink.out s) ++ held (Sink.pc (Sink.wk s))
    ++ SafeQueue.q (Output.queue_ (Sink.out s)).

(** The records the producers hand over in a run, in order. *)
Definition added (es : list Sink.event) : list string :=
  flat_map (fun e => match e with Sink.Add _ str _ => [str] | _ => [] end) es.

Definition is_dtor (e : Sink.event) : bool :=
  match e with
  | Sink.Dtor _ => true
  | _ => false
  end.

Definition is_worker (e : Sink.event) : bool :=
  match e with
  | Sink.Worker _ => true
  | _ => false
  end.

(** The turns the worker needs to write [n] queued records and come back
    to its [pop]: four for a record (loop test, pop, test of [alive_],
    insertion) and the loop test. *)
Definition drain_turns (n : nat) : list Sink.event :=
  repeat (Sink.Worker 0) (4 * n + 1).

(** An alive sink that was not told to quit and whose worker stands at the
    head of its loop. *)
Definition at_loop_head (s : Sink.state) : Prop :=
  Output.alive_ (Sink.out s) = true
  /\ SafeQueue.x (Output.queue_ (Sink.out s)) = false
  /\ Sink.pc (Sink.wk s) = Sink.WTest.

(** An alive sink without a bound, not told to quit. *)
Definition unbounded (s : Sink.state) : Prop :=
  Output.alive_ (Sink.out s) = true
  /\ SafeQueue.x (Output.queue_ (Sink.out s)) = false
  /\ Output.max_ (Sink.out s) = 0.

(** A registry without configured sinks whose default sink is as
    [Log ()] makes it: alive, of depth one, empty, nothing dropped. *)
Definition on_default_sink (l : Log.t) : Prop :=
  Log.outputs_ l = []
  /\ Output.alive_ (Log.default_output_ l) = true
  /\ Output.max_ (Log.default_output_ l) = 1
  /\ SafeQueue.q (Output.queue_ (Log.default_output_ l)) = []
  /\ Output.dropped_ (Log.default_output_ l) = 0.

(** Where a run stands against the records handed over so far. *)
Definition in_order (s : Sink.state) (total : list string) : Prop :=
  if Output.alive_ (Sink.out s)
  then unbounded s /\ Sink.dt s = Sink.AtAlive /\ in_flight s = total
  else Output.wstream_ (Sink.out s) ++ committed (Sink.pc (Sink.wk s))
         `prefix_of` total.

(** The statements [~Output] has still to make before its join. *)
Definition turns_to_join (d : Sink.dtor_pc) : nat :=
  match d with
  | Sink.AtAlive => 4
  | Sink.AtQuit => 3
  | Sink.AtDrain => 2
  | Sink.AtLog => 1
  | _ => 0
  end.

(** The destructor going on from where it stands, the worker getting its
    turn at the join. *)
Definition rest_of_teardown (now : Z) (s : Sink.state) : list Sink.event :=
  match Sink.dt s with
  | Sink.Destroyed => []
  | d => repeat (Sink.Dtor now) (turns_to_join d)
           ++ finish (Sink.pc (Sink.wk s)) ++ [Sink.Dtor now]
  end.

(** A sink without a bound, as [addOutput] with buffer size zero makes
    it. *)
Definition open_sink : Sink.state :=
  Sink.start (Output.make (Output.File "app.log") LDEBUG 0).

(** * Properties *)

Ltac invert H := inversion H; subst; clear H.

(** ** SafeQueue *)

Section SafeQueueFacts.
Context {T : Type} `{DefaultConstructible T}.
Implicit Types (s : SafeQueue.t T) (cs : list (SafeQueue.call T)).

Lemma quit_eq s :
  SafeQueue.quit s = (Z.of_nat (length (SafeQueue.q s)), SafeQueue.mk [] true).
Proof. reflexivity. Qed.

Lemma pop_signaled s :
  SafeQueue.x s = true -> SafeQueue.pop s = Some (value_init, s).
Proof. intros Hx. unfold SafeQueue.pop. now rewrite Hx. Qed.

Lemma pop_front (v : T) (rest : list T) :
  SafeQueue.pop (SafeQueue.mk (v :: rest) false)
  = Some (v, SafeQueue.mk rest false).
Proof. reflexivity. Qed.

(** No call clears [x]. *)
Lemma perform_keeps_x c s a s' :
  SafeQueue.x s = true -> SafeQueue.perform c s = Some (a, s') ->
  SafeQueue.x s' = true.
Proof.
  intros Hx Hp. destruct c; simpl in Hp.
  - now invert Hp.
  - rewrite (pop_signaled s Hx) in Hp. simpl in Hp. now invert Hp.
  - now invert Hp.
  - unfold SafeQueue.join in Hp. destruct (SafeQueue.q s); simpl in Hp;
      [now invert Hp | discriminate].
  - now invert Hp.
  - now invert Hp.
Qed.

(** Under [x] a pop is answered with [T ()]. *)
Lemma perform_pop_signaled s a s' :
  SafeQueue.x s = true -> SafeQueue.perform SafeQueue.Pop s = Some (a, s') ->
  a = SafeQueue.Popped value_init /\ s' = s.
Proof.
  intros Hx Hp. simpl in Hp. rewrite (pop_signaled s Hx) in Hp. simpl in Hp.
  now inversion Hp.
Qed.

Lemma history_signaled cs : forall s h s',
  SafeQueue.x s = true -> SafeQueue.history cs s = Some (h, s') ->
  SafeQueue.x s' = true /\ Forall sentinel_answer h.
Proof.
  induction cs as [|c cs IH]; intros s h s' Hx Hh; simpl in Hh.
  - inversion Hh; subst. split; [assumption | constructor].
  - destruct (SafeQueue.perform c s) as [[a s1]|] eqn:Hp; simpl in Hh;
      [|discriminate].
    destruct (SafeQueue.history cs s1) as [[h1 s2]|] eqn:Hh1; simpl in Hh;
      [|discriminate].
    inversion Hh; subst.
    pose proof (perform_keeps_x _ _ _ _ Hx Hp) as Hx1.
    destruct (IH _ _ _ Hx1 Hh1) as [Hx2 Hall]. split; [assumption|].
    constructor; [|assumption].
    intros Hc. simpl in Hc. subst c. simpl.
    now destruct (perform_pop_signaled _ _ _ Hx Hp).
Qed.

(** Under [x], pushes and pops never wait, and the pops take nothing:
    what was pushed is all still there. *)
Lemma history_signaled_keeps cs : forall s,
  SafeQueue.x s = true ->
  forallb (fun c => negb (removes c) && negb (waits c)) cs = true ->
  exists h s', SafeQueue.history cs s = Some (h, s')
    /\ SafeQueue.q s' = SafeQueue.q s ++ pushed cs.
Proof.
  induction cs as [|c cs IH]; intros s Hx Hcs.
  - exists [], s. simpl. now rewrite app_nil_r.
  - simpl in Hcs. apply andb_prop in Hcs as [Hc Hcs].
    assert (Hstep : exists a s1, SafeQueue.perform c s = Some (a, s1)
              /\ SafeQueue.x s1 = true
              /\ SafeQueue.q s1 = SafeQueue.q s ++ pushed [c]).
    { destruct c; simpl in Hc; try discriminate.
      - eexists _, _. split; [reflexivity|]. split; [assumption | reflexivity].
      - eexists _, _. simpl. rewrite (pop_signaled s Hx). simpl.
        split; [reflexivity|]. split; [assumption | now rewrite app_nil_r].
      - eexists _, _. split; [reflexivity|].
        split; [assumption | simpl; now rewrite app_nil_r]. }
    destruct Hstep as (a & s1 & Hp & Hx1 & Hq1).
    destruct (IH s1 Hx1 Hcs) as (h & s' & Hh & Hq).
    exists ((c, a) :: h), s'. split.
    + change (SafeQueue.history (c :: cs) s)
        with (SafeQueue.perform c s ≫= fun '(a, s') =>
              SafeQueue.history cs s' ≫= fun '(h, s'') => Some ((c, a) :: h, s'')).
      rewrite Hp. simpl. rewrite Hh. reflexivity.
    + rewrite Hq, Hq1. rewrite <- app_assoc. f_equal.
      unfold pushed. simpl. now rewrite app_nil_r.
Qed.

(** C4: [quit ()] sets [x] for good, empties the queue and returns how
    many elements it threw away; from then on, whatever calls follow, a
    [pop ()] is answered at once with [T ()]; before any [quit ()], a
    [pop ()] on a queue with an element returns the front one. *)
Theorem C4_quit_then_pop_sentinel s :
  SafeQueue.quit s = (Z.of_nat (length (SafeQueue.q s)), SafeQueue.mk [] true)
  /\ (forall cs h s',
        SafeQueue.history cs (snd (SafeQueue.quit s)) = Some (h, s') ->
        SafeQueue.x s' = true
        /\ Forall sentinel_answer h
        /\ SafeQueue.pop s' = Some (value_init, s'))
  /\ (forall v rest,
        SafeQueue.x s = false -> SafeQueue.q s = v :: rest ->
        SafeQueue.pop s = Some (v, SafeQueue.mk rest false)).
Proof.
  split; [apply quit_eq|]. split.
  - intros cs h s' Hh.
    assert (Hq : SafeQueue.x (snd (SafeQueue.quit s)) = true) by reflexivity.
    destruct (history_signaled cs _ h s' Hq Hh) as [Hx Hall].
    split; [assumption|]. split; [assumption|]. now apply pop_signaled.
  - intros v rest Hx Hq. unfold SafeQueue.pop. now rewrite Hx, Hq.
Qed.

End SafeQueueFacts.

(** ** The threads of a sink *)

Section SinkFacts.
Context `{Libc}.
Implicit Types (o : Output.t) (s : Sink.state) (es : list Sink.event).

Lemma add_not_alive now str t0 o :
  Output.alive_ o = false -> Output.add now str t0 o = o.
Proof. intros Ha. unfold Output.add. now rewrite Ha. Qed.

(** [add] touches neither the flags nor the destination. *)
Lemma add_keeps now str t0 o :
  Output.alive_ (Output.add now str t0 o) = Output.alive_ o
  /\ Output.wstream_ (Output.add now str t0 o) = Output.wstream_ o
  /\ SafeQueue.x (Output.queue_ (Output.add now str t0 o))
     = SafeQueue.x (Output.queue_ o)
  /\ Output.max_ (Output.add now str t0 o) = Output.max_ o.
Proof.
  unfold Output.add, Output.logDropped.
  repeat match goal with
         | |- context [if ?b then _ else _] => destruct b eqn:?
         end; simpl; auto.
Qed.

(** Only past [if (alive_)] does the worker put a line into the
    destination: once [alive_] is down, what is written and what the
    worker is bound to write stay as they are together. *)
Lemma step_not_alive e s s' :
  Output.alive_ (Sink.out s) = false -> Sink.step e s = Some s' ->
  Output.alive_ (Sink.out s') = false
  /\ Output.wstream_ (Sink.out s') ++ committed (Sink.pc (Sink.wk s'))
     = Output.wstream_ (Sink.out s) ++ committed (Sink.pc (Sink.wk s)).
Proof.
  destruct s as [o [p wr lf] d]. simpl. intros Ha Hs.
  destruct e as [now|now|now str t0].
  - unfold Sink.step, Sink.worker_step in Hs. simpl in Hs. destruct p.
    + rewrite Ha in Hs. simpl in Hs. now invert Hs.
    + destruct (SafeQueue.pop (Output.queue_ o)) as [[v qu]|]; simpl in Hs;
        [|discriminate].
      invert Hs. simpl. auto.
    + rewrite Ha in Hs. simpl in Hs. now invert Hs.
    + invert Hs. simpl. rewrite app_nil_r. auto.
    + discriminate.
  - unfold Sink.step, Sink.dtor_step in Hs. simpl in Hs. destruct d.
    + invert Hs. simpl. auto.
    + invert Hs. simpl. auto.
    + invert Hs. simpl. auto.
    + destruct (Output.dropped_ o =? 0); invert Hs; simpl; auto.
    + destruct p; invert Hs. simpl. auto.
    + discriminate.
  - unfold Sink.step in Hs. simpl in Hs. invert Hs. simpl.
    rewrite (add_not_alive _ _ _ _ Ha). auto.
Qed.

Lemma exec_not_alive es : forall s s',
  Output.alive_ (Sink.out s) = false -> Sink.exec es s = Some s' ->
  Output.alive_ (Sink.out s') = false
  /\ Output.wstream_ (Sink.out s') ++ committed (Sink.pc (Sink.wk s'))
     = Output.wstream_ (Sink.out s) ++ committed (Sink.pc (Sink.wk s)).
Proof.
  induction es as [|e es IH]; intros s s' Ha He; simpl in He.
  - invert He. auto.
  - destruct (Sink.step e s) as [s1|] eqn:Hs; simpl in He; [|discriminate].
    destruct (step_not_alive _ _ _ Ha Hs) as [Ha1 Hw1].
    destruct (IH _ _ Ha1 He) as [Ha2 Hw2]. split; [assumption | congruence].
Qed.

(** The worker changes neither [alive_] nor [x]. *)
Lemma worker_step_flags now o w o' w' :
  Sink.worker_step now o w = Some (o', w') ->
  Output.alive_ o' = Output.alive_ o
  /\ SafeQueue.x (Output.queue_ o') = SafeQueue.x (Output.queue_ o).
Proof.
  unfold Sink.worker_step. intros Hs. destruct (Sink.pc w).
  - repeat match type of Hs with
           | context [if ?b then _ else _] => destruct b eqn:?
           end; invert Hs; auto.
  - unfold SafeQueue.pop in Hs.
    destruct (SafeQueue.x (Output.queue_ o)) eqn:Hx; simpl in Hs.
    + invert Hs. simpl. auto.
    + destruct (SafeQueue.q (Output.queue_ o)); simpl in Hs; [discriminate|].
      invert Hs. simpl. auto.
  - destruct (Output.alive_ o) eqn:Ha; invert Hs; simpl; auto.
  - invert Hs. simpl. auto.
  - discriminate.
Qed.

Lemma consistent_flags s s' :
  Sink.dt s' = Sink.dt s ->
  Output.alive_ (Sink.out s') = Output.alive_ (Sink.out s) ->
  SafeQueue.x (Output.queue_ (Sink.out s'))
  = SafeQueue.x (Output.queue_ (Sink.out s)) ->
  Sink.consistent s -> Sink.consistent s'.
Proof.
  unfold Sink.consistent. intros -> -> ->. trivial.
Qed.

Lemma step_consistent e s s' :
  Sink.consistent s -> Sink.step e s = Some s' -> Sink.consistent s'.
Proof.
  intros Hc Hs. destruct e as [now|now|now str t0].
  - unfold Sink.step in Hs.
    destruct (Sink.worker_step now (Sink.out s) (Sink.wk s)) as [[o w]|] eqn:Hw;
      simpl in Hs; [|discriminate].
    invert Hs. destruct (worker_step_flags _ _ _ _ _ Hw).
    now apply (consistent_flags s).
  - destruct s as [o w d]. unfold Sink.consistent in *.
    unfold Sink.step, Sink.dtor_step in Hs. simpl in *. destruct d.
    + invert Hs. reflexivity.
    + invert Hs. simpl. auto.
    + invert Hs. simpl. assumption.
    + destruct (Output.dropped_ o =? 0); invert Hs; simpl; assumption.
    + destruct (Sink.pc w); invert Hs. simpl. assumption.
    + discriminate.
  - unfold Sink.step in Hs. invert Hs.
    destruct (add_keeps now str t0 (Sink.out s)) as (Ha & _ & Hx & _).
    now apply (consistent_flags s).
Qed.

Lemma exec_consistent es : forall s s',
  Sink.consistent s -> Sink.exec es s = Some s' -> Sink.consistent s'.
Proof.
  induction es as [|e es IH]; intros s s' Hc He; simpl in He.
  - now invert He.
  - destruct (Sink.step e s) as [s1|] eqn:Hs; simpl in He; [|discriminate].
    eapply IH; [|exact He]. eapply step_consistent; eassumption.
Qed.

(** Once [~Output] is past [logDropped], nobody takes from the queue or
    puts into it. *)
Lemma step_after_log e s s' :
  Sink.consistent s -> Sink.dt s = Sink.AtJoin \/ Sink.dt s = Sink.Destroyed ->
  Sink.step e s = Some s' ->
  Output.queue_ (Sink.out s') = Output.queue_ (Sink.out s)
  /\ (Sink.dt s' = Sink.AtJoin \/ Sink.dt s' = Sink.Destroyed).
Proof.
  destruct s as [o w d]. unfold Sink.consistent. simpl. intros Hc Hd Hs.
  assert (Hax : Output.alive_ o = false
                /\ SafeQueue.x (Output.queue_ o) = true)
    by (destruct Hd; subst d; exact Hc).
  destruct Hax as [Ha Hx]. clear Hc.
  destruct e as [now|now|now str t0].
  - unfold Sink.step, Sink.worker_step in Hs. simpl in Hs.
    destruct (Sink.pc w).
    + rewrite Ha in Hs. simpl in Hs. invert Hs. simpl. auto.
    + unfold SafeQueue.pop in Hs. rewrite Hx in Hs. simpl in Hs. invert Hs.
      simpl. auto.
    + rewrite Ha in Hs. simpl in Hs. invert Hs. simpl. auto.
    + invert Hs. simpl. auto.
    + discriminate.
  - unfold Sink.step, Sink.dtor_step in Hs. simpl in Hs.
    destruct Hd; subst d.
    + destruct (Sink.pc w); invert Hs. simpl. auto.
    + discriminate.
  - unfold Sink.step in Hs. simpl in Hs. invert Hs. simpl.
    rewrite (add_not_alive _ _ _ _ Ha). auto.
Qed.

Lemma exec_after_log es : forall s s',
  Sink.consistent s -> Sink.dt s = Sink.AtJoin \/ Sink.dt s = Sink.Destroyed ->
  Sink.exec es s = Some s' ->
  Output.queue_ (Sink.out s') = Output.queue_ (Sink.out s).
Proof.
  induction es as [|e es IH]; intros s s' Hc Hd He; simpl in He.
  - now invert He.
  - destruct (Sink.step e s) as [s1|] eqn:Hs; simpl in He; [|discriminate].
    destruct (step_after_log _ _ _ Hc Hd Hs) as [Hq Hd1].
    rewrite <- Hq. apply IH; [|assumption..].
    eapply step_consistent; eassumption.
Qed.

End SinkFacts.

Section Destruction.
Context `{Libc}.
Implicit Types (o : Output.t) (s : Sink.state) (es : list Sink.event).

(** The destructor run in one go ends; the destination gains the record
    the worker was bound to write and nothing else, and the queue is left
    with nothing but the line that counts what was thrown away. *)
Lemma teardown_runs now s :
  Sink.dt s = Sink.AtAlive ->
  exists s',
    Sink.exec (teardown now s) s = Some s'
    /\ Sink.dt s' = Sink.Destroyed
    /\ Output.wstream_ (Sink.out s')
       = Output.wstream_ (Sink.out s) ++ committed (Sink.pc (Sink.wk s))
    /\ Output.dropped_ (Sink.out s') = 0
    /\ SafeQueue.q (Output.queue_ (Sink.out s'))
       = let total := wrap_size_t (Output.dropped_ (Sink.out s)
                                   + SafeQueue.size (Output.queue_ (Sink.out s))) in
         if total =? 0 then [] else [Output.dropped_line now total].
Proof.
  destruct s as [o [p wr lf] d]. simpl. intros ->.
  destruct o as [[qu xq] de ws mx lv dr al fd]. unfold teardown. simpl.
  cbn -[wrap_size_t Z.eqb Z.of_nat].
  change (SafeQueue.size (SafeQueue.set_x (SafeQueue.mk qu xq)))
    with (Z.of_nat (length qu)).
  change (SafeQueue.size (SafeQueue.mk qu xq)) with (Z.of_nat (length qu)).
  set (total := wrap_size_t (dr + Z.of_nat (length qu))).
  destruct (total =? 0) eqn:Ht; destruct p;
    cbn -[wrap_size_t Z.eqb Z.of_nat]; eexists;
    (split; [reflexivity|]); cbn -[wrap_size_t Z.eqb Z.of_nat];
    rewrite ?app_nil_r;
    repeat split; try reflexivity; now apply Z.eqb_eq.
Qed.

(** C2, amended: the destructor of a sink does not write the pending
    records, it throws them away.  From its first statement
    [alive_ = false] on, whatever the threads do, the one line that can
    still reach the destination is the record the worker had popped and
    taken past its test [if (alive_)] before; no record of the queue is
    written.  [quit ()] empties the queue and the number of records
    thrown away goes into the drop counter, which [logDropped] turns into
    one last line in the queue; the worker returns and the join ends. *)
Theorem C2_destruction_discards_pending s :
  Sink.dt s = Sink.AtAlive ->
  (forall now es s',
     Sink.exec (Sink.Dtor now :: es) s = Some s' ->
     Output.wstream_ (Sink.out s') ++ committed (Sink.pc (Sink.wk s'))
     = Output.wstream_ (Sink.out s) ++ committed (Sink.pc (Sink.wk s)))
  /\ (forall now, exists s',
        Sink.exec (teardown now s) s = Some s'
        /\ Sink.dt s' = Sink.Destroyed
        /\ Output.wstream_ (Sink.out s')
           = Output.wstream_ (Sink.out s) ++ committed (Sink.pc (Sink.wk s))
        /\ Output.dropped_ (Sink.out s') = 0
        /\ SafeQueue.q (Output.queue_ (Sink.out s'))
           = let total := wrap_size_t (Output.dropped_ (Sink.out s)
                                       + SafeQueue.size (Output.queue_ (Sink.out s))) in
             if total =? 0 then [] else [Output.dropped_line now total]).
Proof.
  intros Hd. split.
  - intros now es s' He.
    change (Sink.step (Sink.Dtor now) s ≫= Sink.exec es = Some s') in He.
    destruct (Sink.step (Sink.Dtor now) s) as [s1|] eqn:Hs; simpl in He;
      [|discriminate].
    assert (Hs1 : Output.alive_ (Sink.out s1) = false
                  /\ Output.wstream_ (Sink.out s1) = Output.wstream_ (Sink.out s)
                  /\ Sink.wk s1 = Sink.wk s).
    { destruct s as [o w d]. simpl in Hd. subst d. cbn in Hs.
      invert Hs. simpl. auto. }
    destruct Hs1 as (Ha & Hw & Hk).
    destruct (exec_not_alive es _ _ Ha He) as [_ Hw']. congruence.
  - intros now. now apply teardown_runs.
Qed.

End Destruction.

Section AfterQuit.
Context {T : Type} `{DefaultConstructible T} `{Libc}.

(** C9: on a queue whose [quit ()] was called, [push] still stores the
    element, and no [pop ()] ever hands it out: every pop is answered with
    [T ()] and leaves the queue as it is, also when elements are there.
    So the line that [~Output] pushes through [logDropped] after
    [queue_.quit ()] stays in the queue for good: nobody takes it out,
    and the destination gains at most the record the worker was bound to
    write before. *)
Theorem C9_pushed_after_quit_is_never_popped :
  (forall (s : SafeQueue.t T) (v : T),
     SafeQueue.x s = true ->
     SafeQueue.q (SafeQueue.push v s) = SafeQueue.q s ++ [v]
     /\ SafeQueue.pop (SafeQueue.push v s)
        = Some (value_init, SafeQueue.push v s))
  /\ (forall (s : SafeQueue.t T) (cs : list (SafeQueue.call T)),
        SafeQueue.x s = true ->
        forallb (fun c => negb (removes c) && negb (waits c)) cs = true ->
        exists h s',
          SafeQueue.history cs s = Some (h, s')
          /\ Forall sentinel_answer h
          /\ SafeQueue.q s' = SafeQueue.q s ++ pushed cs)
  /\ (forall (st : Sink.state) now es st',
        Sink.consistent st ->
        Sink.dt st = Sink.AtLog ->
        Output.dropped_ (Sink.out st) <> 0 ->
        Sink.exec (Sink.Dtor now :: es) st = Some st' ->
        SafeQueue.q (Output.queue_ (Sink.out st'))
        = SafeQueue.q (Output.queue_ (Sink.out st))
            ++ [Output.dropped_line now (Output.dropped_ (Sink.out st))]
        /\ Output.wstream_ (Sink.out st') ++ committed (Sink.pc (Sink.wk st'))
           = Output.wstream_ (Sink.out st) ++ committed (Sink.pc (Sink.wk st))).
Proof.
  split; [|split].
  - intros s v Hx. split; [reflexivity|]. now apply pop_signaled.
  - intros s cs Hx Hcs.
    destruct (history_signaled_keeps cs s Hx Hcs) as (h & s' & Hh & Hq).
    exists h, s'. split; [assumption|]. split; [|assumption].
    now destruct (history_signaled cs s h s' Hx Hh).
  - intros st now es st' Hc Hd Hn He.
    change (Sink.step (Sink.Dtor now) st ≫= Sink.exec es = Some st') in He.
    destruct (Sink.step (Sink.Dtor now) st) as [s1|] eqn:Hs; simpl in He;
      [|discriminate].
    pose proof (step_consistent _ _ _ Hc Hs) as Hc1.
    assert (Hc' := Hc). unfold Sink.consistent in Hc'. rewrite Hd in Hc'.
    destruct Hc' as [Ha Hx].
    destruct (step_not_alive _ _ _ Ha Hs) as [Ha1 Hw1].
    destruct (exec_not_alive es _ _ Ha1 He) as [_ Hw2].
    split; [|congruence].
    assert (Hs1 : Sink.dt s1 = Sink.AtJoin
                  /\ SafeQueue.q (Output.queue_ (Sink.out s1))
                     = SafeQueue.q (Output.queue_ (Sink.out st))
                         ++ [Output.dropped_line now (Output.dropped_ (Sink.out st))]).
    { destruct st as [o w d]. simpl in *. subst d. cbn in Hs.
      destruct (Output.dropped_ o =? 0) eqn:Hz;
        [apply Z.eqb_eq in Hz; contradiction|].
      invert Hs. simpl. auto. }
    destruct Hs1 as [Hd1 Hq1].
    rewrite (exec_after_log es _ _ Hc1 (or_introl Hd1) He). exact Hq1.
Qed.

End AfterQuit.

(** ** Overflow of a sink *)

Section Overflow.
Context `{Libc}.
Implicit Types (o : Output.t) (rs : list add_call).


Lemma add_has_room now str t0 o :
  Output.alive_ o = true ->
  Output.max_ o = 0 \/ SafeQueue.size (Output.queue_ o) < Output.max_ o ->
  Output.add now str t0 o
  = Output.set_queue o (SafeQueue.push str (Output.queue_ o)).
Proof.
  intros Ha Hr. unfold Output.add. rewrite Ha.
  destruct Hr as [Hr|Hr].
  - rewrite Hr. reflexivity.
  - apply Z.ltb_lt in Hr. rewrite Hr. now rewrite orb_true_r.
Qed.

Lemma add_full_test o :
  0 < Output.max_ o <= SafeQueue.size (Output.queue_ o) ->
  (Output.max_ o =? 0) || (SafeQueue.size (Output.queue_ o) <? Output.max_ o)
  = false.
Proof.
  intros Hf. apply orb_false_iff. split.
  - apply Z.eqb_neq. lia.
  - apply Z.ltb_ge. lia.
Qed.

(** The first drop of a streak. *)
Lemma add_first_drop now str t0 o :
  full o -> Output.dropped_ o = 0 ->
  Output.add now str t0 o
  = Output.set_firstDrop (Output.set_dropped o 1) t0.
Proof.
  intros (Ha & Hf & Hd) Hz. unfold Output.add.
  rewrite Ha, (add_full_test o Hf), Hz. reflexivity.
Qed.



(** While there is room every record goes in. *)
Lemma fill_phase rs : forall o,
  Output.alive_ o = true ->
  SafeQueue.size (Output.queue_ o) + Z.of_nat (length rs) <= Output.max_ o ->
  add_all rs o
  = Output.set_queue o
      (SafeQueue.mk (SafeQueue.q (Output.queue_ o) ++ map text_of rs)
                    (SafeQueue.x (Output.queue_ o))).
Proof.
  induction rs as [|r rs IH]; intros o Ha Hs.
  - simpl. rewrite app_nil_r. now destruct o as [[qu xq] ? ? ? ? ? ? ?].
  - change (add_all (r :: rs) o)
      with (add_all rs (Output.add (clock_of r) (text_of r) (stamp_of r) o)).
    rewrite add_has_room by (try assumption; right; simpl in Hs; lia).
    rewrite IH.
    + simpl. rewrite <- app_assoc. reflexivity.
    + exact Ha.
    + unfold SafeQueue.size in *. simpl in *. rewrite length_app. simpl. lia.
Qed.



End Overflow.

Section OverflowClaim.
Context `{Libc}.



End OverflowClaim.

(** ** The formatter *)

Lemma mem_append c (a b : string) : mem c (a +:+ b) = mem c a || mem c b.
Proof.
  induction a as [|x a IH]; simpl; [reflexivity|].
  rewrite IH. now rewrite orb_assoc.
Qed.

Lemma strrchr_None s c : Log.strrchr s c = None <-> mem c s = false.
Proof.
  induction s as [|a r IH]; simpl; [tauto|].
  destruct (Log.strrchr r c) as [p|].
  - split; [discriminate|]. intros Hm. apply orb_false_iff in Hm as [_ Hm].
    apply IH in Hm. discriminate.
  - destruct (Ascii.eqb a c); simpl.
    + split; discriminate.
    + split; [intros _; now apply IH | reflexivity].
Qed.

(** [strrchr] points at the last [c]: no [c] comes behind it. *)
Lemma strrchr_Some s c : forall p,
  Log.strrchr s c = Some p ->
  exists pre r, p = String c r /\ s = pre +:+ p /\ mem c r = false.
Proof.
  induction s as [|a r IH]; intros p Hp; simpl in Hp; [discriminate|].
  destruct (Log.strrchr r c) as [p'|] eqn:Hr.
  - invert Hp. destruct (IH p eq_refl) as (pre & r' & -> & Hs & Hm).
    exists (String a pre), r'. repeat split; [|assumption].
    change (String a r = String a (pre +:+ String c r')). now f_equal.
  - destruct (Ascii.eqb a c) eqn:Hac; [|discriminate].
    invert Hp. apply Ascii.eqb_eq in Hac. subst a.
    exists EmptyString, r. repeat split. now apply strrchr_None.
Qed.

Lemma last_separator_None s :
  mem "/" s = false -> mem "\" s = false -> last_separator s = None.
Proof.
  induction s as [|a r IH]; simpl; [reflexivity|]. intros H1 H2.
  apply orb_false_iff in H1 as [Ha1 H1]. apply orb_false_iff in H2 as [Ha2 H2].
  rewrite (IH H1 H2). unfold is_separator. now rewrite Ha1, Ha2.
Qed.

Lemma last_separator_append pre c suf :
  is_separator c = true -> mem "/" suf = false -> mem "\" suf = false ->
  last_separator (pre +:+ String c suf) = Some suf.
Proof.
  intros Hc H1 H2. induction pre as [|a pre IH]; simpl.
  - now rewrite (last_separator_None suf H1 H2), Hc.
  - now rewrite IH.
Qed.

(** What [basename] returns, by the separators of the path. *)
Lemma basename_cases file :
  (mem "\" file = true ->
   exists pre, file = pre +:+ String "\" (Log.basename file)
               /\ mem "\" (Log.basename file) = false)
  /\ (mem "\" file = false -> mem "/" file = true ->
      exists pre, file = pre +:+ String "/" (Log.basename file)
                  /\ mem "/" (Log.basename file) = false
                  /\ mem "\" (Log.basename file) = false)
  /\ (mem "\" file = false -> mem "/" file = false ->
      Log.basename file = file).
Proof.
  unfold Log.basename.
  destruct (Log.strrchr file "\") as [p|] eqn:Hb.
  - destruct (strrchr_Some _ _ _ Hb) as (pre & r & -> & Hs & Hm).
    split; [|split].
    + intros _. exists pre. simpl. auto.
    + intros Hn. apply strrchr_None in Hn. congruence.
    + intros Hn. apply strrchr_None in Hn. congruence.
  - apply strrchr_None in Hb.
    split; [|split]; try (intros Hn; congruence).
    + intros _ Hs. destruct (Log.strrchr file "/") as [p|] eqn:Hsl.
      * destruct (strrchr_Some _ _ _ Hsl) as (pre & r & -> & Hf & Hm).
        exists pre. simpl. repeat split; try assumption.
        rewrite Hf, mem_append in Hb. apply orb_false_iff in Hb as [_ Hb].
        simpl in Hb. exact Hb.
      * apply strrchr_None in Hsl. congruence.
    + intros _ Hs. apply strrchr_None in Hs. now rewrite Hs.
Qed.

(** [basename] is the part behind the last separator when no slash comes
    behind the last backslash. *)
Lemma basename_last_component file :
  mem "/" (Log.basename file) = false ->
  Log.basename file = after_last_separator file.
Proof.
  intros Hn. destruct (basename_cases file) as (H1 & H2 & H3).
  unfold after_last_separator.
  destruct (mem "\" file) eqn:Hb.
  - destruct (H1 eq_refl) as (pre & Hf & Hm).
    rewrite Hf at 2. now rewrite last_separator_append.
  - destruct (mem "/" file) eqn:Hs.
    + destruct (H2 eq_refl eq_refl) as (pre & Hf & Hm1 & Hm2).
      rewrite Hf at 2. now rewrite last_separator_append.
    + rewrite (last_separator_None file Hs Hb). now apply H3.
Qed.

Lemma levelNames_undefined level :
  ~ In level defined_levels -> levelNames_ !! level = None.
Proof.
  intros Hn. unfold levelNames_. apply not_elem_of_list_to_map.
  intros Hin. apply Hn. apply list_elem_of_In. exact Hin.
Qed.

(** C5, amended: looking up the name of a level that has none does not
    fail and yields the empty string, not a text such as "INVALID":
    [operator[]] puts an empty name under that level in the table, the
    names of the other levels stay, and every later lookup of the level
    yields the empty string again. *)
Theorem C5_unknown_level_has_empty_name (n : gmap Z string) (level : Z) :
  (~ In level defined_levels -> levelNames_ !! level = None)
  /\ (n !! level = None ->
      Log.levelname n level = (EmptyString, <[level := EmptyString]> n)
      /\ Log.levelname (snd (Log.levelname n level)) level
         = (EmptyString, snd (Log.levelname n level))
      /\ forall other, other <> level ->
           snd (Log.levelname n level) !! other = n !! other).
Proof.
  split; [apply levelNames_undefined|].
  intros Hn. unfold Log.levelname. rewrite Hn. simpl.
  rewrite lookup_insert_eq. repeat split.
  intros other Ho. now apply lookup_insert_ne.
Qed.

Section Formatter.
Context `{Libc}.

(** C8, amended: the formatter stages the prefix
    "<timestamp> <basename(file)>:<line> <LEVELNAME> ", the time stamp
    rendered by [strftime] with the format of the registry, which is
    "%Y%m%d.%H%M%S" unless changed.  [basename] strips everything up to
    the last backslash when the path has one, else everything up to the
    last slash, else nothing; this is the part behind the last path
    separator when no slash comes behind the last backslash. *)
Theorem C8_prefix_of_a_record (now level : Z) (file : string) (line : Z)
    (l : Log.t) :
  Log.ws (Log.ll_ (Log.writer now level file line l))
  = timestamp (Log.timeFormat_ l) now +:+ " " +:+ Log.basename file +:+ ":"
      +:+ decimal line +:+ " " +:+ fst (Log.levelname (Log.names l) level)
      +:+ " "
  /\ Log.timeFormat_ Log.init = "%Y%m%d.%H%M%S"%string
  /\ (mem "\" file = true ->
      exists pre, file = pre +:+ String "\" (Log.basename file)
                  /\ mem "\" (Log.basename file) = false)
  /\ (mem "\" file = false -> mem "/" file = true ->
      exists pre, file = pre +:+ String "/" (Log.basename file)
                  /\ mem "/" (Log.basename file) = false
                  /\ mem "\" (Log.basename file) = false)
  /\ (mem "\" file = false -> mem "/" file = false ->
      Log.basename file = file)
  /\ (mem "/" (Log.basename file) = false ->
      Log.basename file = after_last_separator file).
Proof.
  split; [|split; [reflexivity|]].
  - unfold Log.writer. now destruct (Log.levelname (Log.names l) level).
  - destruct (basename_cases file) as (H1 & H2 & H3).
    repeat split; try assumption. apply basename_last_component.
Qed.

End Formatter.

(** ** The registry *)

Section Registry.
Context `{Libc}.
Implicit Types (l : Log.t) (o : Output.t) (clock : nat -> Z).

Lemma fan_out_spec clock str t0 outs : forall i,
  Log.fan_out clock str t0 i outs
  = (imap (fun j o => Output.add (clock (i + j)%nat) str t0 o) outs,
     map Log.Configured (seq i (length outs))).
Proof.
  induction outs as [|o outs IH]; intros i; simpl; [reflexivity|].
  rewrite IH. rewrite Nat.add_0_r. do 2 f_equal.
  apply imap_ext. intros j x _. simpl. do 2 f_equal. lia.
Qed.

(** What [queue] leaves of the registry. *)
Lemma queue_outputs clock l :
  Log.outputs_ (fst (Log.queue clock l))
  = imap (fun i o => Output.add (clock i) (Log.ws (Log.ll_ l))
                       (Log.tm (Log.ll_ l)) o)
      (Log.outputs_ l)
  /\ Log.ll_ (fst (Log.queue clock l)) = Log.ll_ l
  /\ snd (Log.queue clock l)
     = match Log.outputs_ l with
       | [] => [Log.Default]
       | _ :: _ => map Log.Configured (seq 0 (length (Log.outputs_ l)))
       end.
Proof.
  unfold Log.queue. destruct (Log.outputs_ l) as [|o outs] eqn:Ho.
  - simpl. rewrite Ho. auto.
  - rewrite fan_out_spec. simpl. auto.
Qed.

Lemma queue_lookup clock l i o :
  Log.outputs_ l !! i = Some o ->
  Log.outputs_ (fst (Log.queue clock l)) !! i
  = Some (Output.add (clock i) (Log.ws (Log.ll_ l)) (Log.tm (Log.ll_ l)) o).
Proof.
  intros Ho. destruct (queue_outputs clock l) as (-> & _ & _).
  rewrite list_lookup_imap, Ho. reflexivity.
Qed.

(** [writer] and [<<] touch the staged record and the table of names
    only. *)
Lemma staged_outputs now level file line msg l :
  Log.outputs_ (Log.insert msg (Log.writer now level file line l))
  = Log.outputs_ l
  /\ Log.default_output_ (Log.insert msg (Log.writer now level file line l))
     = Log.default_output_ l
  /\ Log.ws (Log.ll_ (Log.insert msg (Log.writer now level file line l)))
     = Log.ws (Log.ll_ (Log.writer now level file line l)) +:+ msg.
Proof.
  unfold Log.insert, Log.writer.
  destruct (Log.levelname (Log.names l) level). simpl. auto.
Qed.

Lemma LOGL_below now clock level file line msg l :
  level < Log.level_ l -> Log.LOGL now clock level file line msg l = (l, []).
Proof.
  intros Hl. unfold Log.LOGL, Log.isLevel.
  destruct (level >=? Log.level_ l) eqn:E; [|reflexivity].
  rewrite Z.geb_leb in E. apply Z.leb_le in E. lia.
Qed.

Lemma LOGL_at_or_above now clock level file line msg l :
  Log.level_ l <= level ->
  Log.LOGL now clock level file line msg l
  = Log.queue clock (Log.insert msg (Log.writer now level file line l)).
Proof.
  intros Hl. unfold Log.LOGL, Log.isLevel.
  destruct (level >=? Log.level_ l) eqn:E; [reflexivity|].
  rewrite Z.geb_leb in E. apply Z.leb_gt in E. lia.
Qed.

(** C6: [LOGL] at a level below the global one formats nothing and
    enqueues nothing, the registry stays as it is; at any other level it
    stages the formatted record, prefix and message, and hands it to
    [queue]: every configured sink, or the default sink when none is
    configured, gets it by [add], and every such sink that is alive and
    has room holds it at the end of its queue; [isLevel] says yes exactly
    at the levels not below the global one. *)
Theorem C6_emit_passes_the_global_level now clock level file line msg l :
  (level < Log.level_ l ->
   Log.LOGL now clock level file line msg l = (l, []))
  /\ (Log.level_ l <= level ->
      Log.LOGL now clock level file line msg l
      = Log.queue clock (Log.insert msg (Log.writer now level file line l))
      /\ (forall i o,
            Log.outputs_ l !! i = Some o ->
            Log.outputs_ (fst (Log.LOGL now clock level file line msg l)) !! i
            = Some (Output.add (clock i)
                      (Log.ws (Log.ll_ (Log.writer now level file line l)) +:+ msg)
                      now o))
      /\ (forall i o,
            Log.outputs_ l !! i = Some o ->
            Output.alive_ o = true ->
            Output.max_ o = 0 \/ SafeQueue.size (Output.queue_ o) < Output.max_ o ->
            exists o',
              Log.outputs_ (fst (Log.LOGL now clock level file line msg l)) !! i
              = Some o'
              /\ SafeQueue.q (Output.queue_ o')
                 = SafeQueue.q (Output.queue_ o)
                     ++ [Log.ws (Log.ll_ (Log.writer now level file line l)) +:+ msg])
      /\ (Log.outputs_ l = [] ->
          snd (Log.LOGL now clock level file line msg l) = [Log.Default]
          /\ Log.default_output_ (fst (Log.LOGL now clock level file line msg l))
             = Output.add (clock 0%nat)
                 (Log.ws (Log.ll_ (Log.writer now level file line l)) +:+ msg)
                 now (Log.default_output_ l)
          /\ (Output.alive_ (Log.default_output_ l) = true ->
              Output.max_ (Log.default_output_ l) = 0
              \/ SafeQueue.size (Output.queue_ (Log.default_output_ l))
                 < Output.max_ (Log.default_output_ l) ->
              SafeQueue.q (Output.queue_
                             (Log.default_output_
                                (fst (Log.LOGL now clock level file line msg l))))
              = SafeQueue.q (Output.queue_ (Log.default_output_ l))
                  ++ [Log.ws (Log.ll_ (Log.writer now level file line l)) +:+ msg])))
  /\ (Log.isLevel level l = true <-> level >= Log.level_ l).
Proof.
  split; [apply LOGL_below|]. split.
  - intros Hl. rewrite (LOGL_at_or_above _ _ _ _ _ _ _ Hl).
    destruct (staged_outputs now level file line msg l) as (Hout & Hdef & Hws).
    assert (Htm : Log.tm (Log.ll_ (Log.insert msg (Log.writer now level file line l)))
                  = now).
    { unfold Log.insert, Log.writer.
      now destruct (Log.levelname (Log.names l) level). }
    assert (Hall : forall i o,
               Log.outputs_ l !! i = Some o ->
               Log.outputs_
                 (fst (Log.queue clock
                         (Log.insert msg (Log.writer now level file line l)))) !! i
               = Some (Output.add (clock i)
                         (Log.ws (Log.ll_ (Log.writer now level file line l)) +:+ msg)
                         now o)).
    { intros i o Ho. rewrite <- Hout in Ho.
      now rewrite (queue_lookup clock _ i o Ho), Hws, Htm. }
    split; [reflexivity|]. split; [exact Hall|]. split.
    + intros i o Ho Ha Hr. rewrite (Hall i o Ho), (add_has_room _ _ _ _ Ha Hr).
      eexists. split; reflexivity.
    + intros Ho. rewrite <- Hout in Ho.
      assert (Hq : Log.queue clock
                     (Log.insert msg (Log.writer now level file line l))
                   = (Log.set_default_output
                        (Log.insert msg (Log.writer now level file line l))
                        (Output.add (clock 0%nat)
                           (Log.ws (Log.ll_ (Log.writer now level file line l))
                              +:+ msg)
                           now (Log.default_output_ l)),
                      [Log.Default])).
      { unfold Log.queue. rewrite Ho, Hws, Htm, Hdef. reflexivity. }
      rewrite Hq. simpl. split; [reflexivity|]. split; [reflexivity|].
      intros Ha Hr. now rewrite (add_has_room _ _ _ _ Ha Hr).
  - unfold Log.isLevel. rewrite Z.geb_leb, Z.leb_le. lia.
Qed.


End Registry.

Section Filtering.
Context `{Libc}.
Implicit Types (l : Log.t) (o : Output.t) (clock : nat -> Z).

(** [add] never looks at [level_]. *)
Lemma add_ignores_level now str t0 o level :
  Output.add now str t0 (Output.set_level o level)
  = Output.set_level (Output.add now str t0 o) level.
Proof.
  unfold Output.add, Output.logDropped. simpl.
  repeat match goal with
         | |- context [if ?b then _ else _] => destruct b
         end; reflexivity.
Qed.

(** C1, amended: a record that [LOGL] puts into the queue of a sink, a
    configured one or the default one, is at or above the global
    threshold.  The threshold of the sink plays no part: [add] has no
    level to compare with and does the same whatever [level_] is. *)
Theorem C1_only_the_global_level_filters now clock level file line msg l :
  (forall i o o',
     Log.outputs_ l !! i = Some o ->
     Log.outputs_ (fst (Log.LOGL now clock level file line msg l)) !! i = Some o' ->
     Output.queue_ o' <> Output.queue_ o ->
     level >= Log.level_ l)
  /\ (Output.queue_ (Log.default_output_
                       (fst (Log.LOGL now clock level file line msg l)))
      <> Output.queue_ (Log.default_output_ l) ->
      level >= Log.level_ l)
  /\ (forall time_read str t0 o threshold,
        Output.add time_read str t0 (Output.set_level o threshold)
        = Output.set_level (Output.add time_read str t0 o) threshold).
Proof.
  destruct (Z_lt_ge_dec level (Log.level_ l)) as [Hlt|Hge].
  - rewrite (LOGL_below now clock level file line msg l Hlt).
    simpl. repeat split.
    + intros i o o' Ho Ho' Hq. congruence.
    + intros Hq. congruence.
    + intros. apply add_ignores_level.
  - repeat split; try (intros; assumption).
    intros. apply add_ignores_level.
Qed.

End Filtering.

Section Staging.
Context `{Libc}.
Implicit Types (l : Log.t) (o : Output.t) (clock : nat -> Z).

(** An alive sink without a bound takes every record. *)
Lemma add_unbounded now str t0 o :
  Output.alive_ o = true -> Output.max_ o = 0 ->
  Output.add now str t0 o
  = Output.set_queue o (SafeQueue.push str (Output.queue_ o)).
Proof. intros Ha Hm. apply add_has_room; auto. Qed.

(** C10: [queue] leaves the staged record of the calling thread where it
    is, so a second [queue] with no [writer] in between hands the same
    record to the same sinks once more: an alive sink without a bound
    then holds it twice, and the registry after two calls is not the one
    after one call.  [writer] starts from an empty buffer: what was staged
    and not queued is gone. *)
Theorem C10_queue_keeps_the_staged_record clock1 clock2 l :
  Log.ll_ (fst (Log.queue clock1 l)) = Log.ll_ l
  /\ snd (Log.queue clock2 (fst (Log.queue clock1 l)))
     = snd (Log.queue clock1 l)
  /\ (forall i o,
        Log.outputs_ l !! i = Some o ->
        Output.alive_ o = true -> Output.max_ o = 0 ->
        (exists o1 o2,
           Log.outputs_ (fst (Log.queue clock1 l)) !! i = Some o1
           /\ SafeQueue.q (Output.queue_ o1)
              = SafeQueue.q (Output.queue_ o) ++ [Log.ws (Log.ll_ l)]
           /\ Log.outputs_ (fst (Log.queue clock2 (fst (Log.queue clock1 l)))) !! i
              = Some o2
           /\ SafeQueue.q (Output.queue_ o2)
              = SafeQueue.q (Output.queue_ o)
                  ++ [Log.ws (Log.ll_ l); Log.ws (Log.ll_ l)])
        /\ fst (Log.queue clock2 (fst (Log.queue clock1 l)))
           <> fst (Log.queue clock1 l))
  /\ (forall now level file line msg,
        Log.ll_ (Log.writer now level file line (Log.insert msg l))
        = Log.ll_ (Log.writer now level file line l)).
Proof.
  destruct (queue_outputs clock1 l) as (Ho1 & Hll1 & Hc1).
  destruct (queue_outputs clock2 (fst (Log.queue clock1 l))) as (Ho2 & Hll2 & Hc2).
  split; [exact Hll1|]. split; [|split].
  - rewrite Hc2, Hc1, Ho1. destruct (Log.outputs_ l); [reflexivity|].
    simpl. now rewrite length_imap.
  - intros i o Ho Ha Hm.
    pose proof (queue_lookup clock1 l i o Ho) as H1.
    rewrite (add_unbounded _ _ _ _ Ha Hm) in H1.
    pose proof (queue_lookup clock2 _ i _ H1) as H2.
    rewrite Hll1 in H2.
    rewrite add_unbounded in H2 by (simpl; assumption).
    split.
    + eexists _, _. split; [exact H1|]. split; [reflexivity|].
      split; [exact H2|]. simpl. now rewrite <- app_assoc.
    + intros Heq. rewrite Heq, H1 in H2. invert H2.
      apply (f_equal (@length string)) in H3.
      rewrite !length_app in H3. simpl in H3. lia.
  - intros now level file line msg. unfold Log.writer, Log.insert. simpl.
    now destruct (Log.levelname (Log.names l) level).
Qed.

End Staging.

(** * Further properties *)

(** ** The queue in use *)

Section QueueOrder.
Context {T : Type} `{DefaultConstructible T}.
Implicit Types (s : SafeQueue.t T) (cs : list (SafeQueue.call T)) (vs : list T).

Lemma history_app cs1 cs2 s :
  SafeQueue.history (cs1 ++ cs2) s
  = '(h1, s1) ← SafeQueue.history cs1 s;
    '(h2, s2) ← SafeQueue.history cs2 s1;
    Some (h1 ++ h2, s2).
Proof.
  revert s. induction cs1 as [|c cs1 IH]; intros s.
  - simpl. destruct (SafeQueue.history cs2 s) as [[h2 s2]|]; reflexivity.
  - change (SafeQueue.history ((c :: cs1) ++ cs2) s)
      with ('(a, s') ← SafeQueue.perform c s;
            '(h, s'') ← SafeQueue.history (cs1 ++ cs2) s';
            Some ((c, a) :: h, s'')).
    change (SafeQueue.history (c :: cs1) s)
      with ('(a, s') ← SafeQueue.perform c s;
            '(h, s'') ← SafeQueue.history cs1 s';
            Some ((c, a) :: h, s'')).
    destruct (SafeQueue.perform c s) as [[a s1]|]; [|reflexivity].
    simpl. rewrite IH.
    destruct (SafeQueue.history cs1 s1) as [[h1 s2]|]; [|reflexivity].
    simpl. destruct (SafeQueue.history cs2 s2) as [[h2 s3]|]; reflexivity.
Qed.

Lemma history_pushes vs : forall s,
  SafeQueue.history (map SafeQueue.Push vs) s
  = Some (map (fun v => (SafeQueue.Push v, SafeQueue.Unit)) vs,
          SafeQueue.mk (SafeQueue.q s ++ vs) (SafeQueue.x s)).
Proof.
  induction vs as [|v vs IH]; intros s.
  - simpl. rewrite app_nil_r. now destruct s.
  - change (SafeQueue.history (map SafeQueue.Push (v :: vs)) s)
      with ('(h, s'') ← SafeQueue.history (map SafeQueue.Push vs) (SafeQueue.push v s);
            Some ((SafeQueue.Push v, SafeQueue.Unit) :: h, s'')).
    rewrite IH. simpl. now rewrite <- app_assoc.
Qed.

Lemma history_pops vs :
  SafeQueue.history (repeat SafeQueue.Pop (length vs)) (SafeQueue.mk vs false)
  = Some (map (fun v => (SafeQueue.Pop, SafeQueue.Popped v)) vs,
          SafeQueue.mk [] false).
Proof.
  induction vs as [|v vs IH]; [reflexivity|].
  change (SafeQueue.history (repeat SafeQueue.Pop (length (v :: vs)))
            (SafeQueue.mk (v :: vs) false))
    with ('(h, s'') ← SafeQueue.history (repeat SafeQueue.Pop (length vs))
                        (SafeQueue.mk vs false);
          Some ((SafeQueue.Pop, SafeQueue.Popped v) :: h, s'')).
  now rewrite IH.
Qed.

(** X1: a queue that was not told to quit is first in, first out, and
    loses nothing: after any pushes, as many pops as there are elements
    hand out the elements that were there and then the pushed ones, each
    once and in order; the pop after that waits. *)
Theorem X1_queue_is_fifo s vs :
  SafeQueue.x s = false ->
  SafeQueue.history
    (map SafeQueue.Push vs
       ++ repeat SafeQueue.Pop (length (SafeQueue.q s ++ vs))) s
  = Some (map (fun v => (SafeQueue.Push v, SafeQueue.Unit)) vs
            ++ map (fun v => (SafeQueue.Pop, SafeQueue.Popped v))
                 (SafeQueue.q s ++ vs),
          SafeQueue.mk [] false)
  /\ SafeQueue.pop (SafeQueue.mk (T := T) [] false) = None.
Proof.
  intros Hx. split; [|reflexivity].
  rewrite history_app, history_pushes. simpl. rewrite Hx, history_pops.
  reflexivity.
Qed.

End QueueOrder.

(** ** A sink at work *)

Section SinkAtWork.
Context `{Libc}.
Implicit Types (o : Output.t) (s : Sink.state) (es : list Sink.event).

Lemma exec_app es1 es2 s :
  Sink.exec (es1 ++ es2) s = Sink.exec es1 s ≫= Sink.exec es2.
Proof.
  revert s. induction es1 as [|e es1 IH]; intros s; [reflexivity|].
  change (Sink.exec ((e :: es1) ++ es2) s)
    with (Sink.step e s ≫= Sink.exec (es1 ++ es2)).
  change (Sink.exec (e :: es1) s) with (Sink.step e s ≫= Sink.exec es1).
  destruct (Sink.step e s) as [s1|]; [|reflexivity]. simpl. apply IH.
Qed.

(** One step of the worker or of a producer on a sink without a bound. *)
Lemma step_unbounded e s s' :
  unbounded s -> is_dtor e = false -> Sink.step e s = Some s' ->
  unbounded s'
  /\ Sink.dt s' = Sink.dt s
  /\ in_flight s' = in_flight s ++ added [e]
  /\ Output.dropped_ (Sink.out s') = Output.dropped_ (Sink.out s).
Proof.
  destruct s as [[[qu xq] de ws mx lv dr al fd] [p wr lf] d].
  unfold unbounded, in_flight. simpl. intros (-> & -> & ->) He Hs.
  destruct e as [now|now|now str t0]; [|discriminate|].
  - unfold Sink.step, Sink.worker_step in Hs. simpl in Hs. destruct p.
    + repeat match type of Hs with
             | context [if ?b then _ else _] => destruct b
             end; invert Hs; unfold added; simpl;
        rewrite ?app_nil_r; auto.
    + destruct qu as [|v rest]; simpl in Hs; [discriminate|].
      invert Hs. unfold added. simpl. rewrite ?app_nil_r. auto.
    + invert Hs. unfold added. simpl. rewrite ?app_nil_r. auto.
    + invert Hs. unfold added. simpl. rewrite ?app_nil_r, <- ?app_assoc. auto.
    + discriminate.
  - unfold Sink.step in Hs. simpl in Hs. invert Hs. unfold added. simpl.
    rewrite ?app_nil_r, ?app_assoc. auto.
Qed.

(** X2: while a sink without a bound is alive, nothing is lost, doubled or
    reordered, however the worker and the producers take turns: the lines
    written, the one in the hand of the worker and the ones queued are,
    in this order, the lines that were there followed by the records
    added in the order of the calls; nothing is counted as dropped. *)
Theorem X2_unbounded_sink_loses_nothing es : forall s s',
  unbounded s ->
  forallb (fun e => negb (is_dtor e)) es = true ->
  Sink.exec es s = Some s' ->
  in_flight s' = in_flight s ++ added es
  /\ Output.dropped_ (Sink.out s') = Output.dropped_ (Sink.out s).
Proof.
  induction es as [|e es IH]; intros s s' Hu Hes He.
  - invert He. unfold added. simpl. now rewrite app_nil_r.
  - simpl in Hes. apply andb_prop in Hes as [Hd Hes].
    apply negb_true_iff in Hd.
    change (Sink.step e s ≫= Sink.exec es = Some s') in He.
    destruct (Sink.step e s) as [s1|] eqn:Hs; simpl in He; [|discriminate].
    destruct (step_unbounded _ _ _ Hu Hd Hs) as (Hu1 & _ & Hf1 & Hd1).
    destruct (IH _ _ Hu1 Hes He) as [Hf Hdr].
    split; [|congruence].
    rewrite Hf, Hf1, <- app_assoc. f_equal. unfold added. simpl.
    now rewrite app_nil_r.
Qed.

(** What the worker is bound to write is what it holds. *)
Lemma committed_held p : exists k, held p = committed p ++ k.
Proof. destruct p; simpl; eauto. Qed.

Lemma step_in_order e s s' total :
  in_order s total -> Sink.step e s = Some s' ->
  in_order s' (total ++ added [e]).
Proof.
  unfold in_order. intros Hi Hs.
  destruct (Output.alive_ (Sink.out s)) eqn:Ha.
  - destruct Hi as (Hu & Hd & Hf).
    destruct (is_dtor e) eqn:He.
    + destruct e as [now|now|now str t0]; try discriminate.
      destruct s as [o w d]. simpl in *. subst d. cbn in Hs. invert Hs.
      simpl. unfold added. simpl. rewrite app_nil_r.
      destruct (committed_held (Sink.pc w)) as [k Hk].
      exists (k ++ SafeQueue.q (Output.queue_ o)).
      unfold in_flight. simpl. rewrite Hk, <- !app_assoc. reflexivity.
    + destruct (step_unbounded _ _ _ Hu He Hs) as (Hu1 & Hd1 & Hf1 & _).
      destruct Hu1 as (Ha1 & Hx1 & Hm1). rewrite Ha1.
      repeat split; try assumption; congruence.
  - destruct (step_not_alive _ _ _ Ha Hs) as [Ha1 Hw1].
    rewrite Ha1, Hw1. now apply prefix_app_r.
Qed.

(** X3: whatever the worker, the producers and the destructor do to a
    sink without a bound, in whatever order: the destination holds, in
    order and without gaps, a front part of the lines that were in the
    sink followed by the records added since. *)
Theorem X3_written_lines_are_a_front_part es : forall s s',
  unbounded s -> Sink.dt s = Sink.AtAlive ->
  Sink.exec es s = Some s' ->
  Output.wstream_ (Sink.out s') `prefix_of` in_flight s ++ added es.
Proof.
  assert (Hgen : forall es s s' total,
             in_order s total -> Sink.exec es s = Some s' ->
             in_order s' (total ++ added es)).
  { clear es. induction es as [|e es IH]; intros s s' total Hi He.
    - invert He. unfold added. simpl. now rewrite app_nil_r.
    - change (Sink.step e s ≫= Sink.exec es = Some s') in He.
      destruct (Sink.step e s) as [s1|] eqn:Hs; simpl in He; [|discriminate].
      pose proof (IH _ _ _ (step_in_order _ _ _ _ Hi Hs) He) as Hi'.
      rewrite <- app_assoc in Hi'.
      replace (added (e :: es)) with (added [e] ++ added es); [exact Hi'|].
      unfold added. simpl. now rewrite app_nil_r. }
  intros s s' Hu Hd He.
  assert (Hi : in_order s (in_flight s)).
  { unfold in_order. destruct Hu as (Ha & Hx & Hm). rewrite Ha.
    repeat split; assumption. }
  pose proof (Hgen es s s' _ Hi He) as Hi'. unfold in_order in Hi'.
  destruct (Output.alive_ (Sink.out s'));
    [|exact (prefix_app_l _ _ _ Hi')].
  destruct Hi' as (_ & _ & <-). unfold in_flight.
  now exists (held (Sink.pc (Sink.wk s'))
                ++ SafeQueue.q (Output.queue_ (Sink.out s'))).
Qed.

Lemma drain_turns_S n :
  drain_turns (S n)
  = [Sink.Worker 0; Sink.Worker 0; Sink.Worker 0; Sink.Worker 0]
      ++ drain_turns n.
Proof.
  unfold drain_turns. replace (4 * S n + 1)%nat with (4 + (4 * n + 1))%nat by lia.
  reflexivity.
Qed.

(** The worker alone, from the head of its loop, on a queue of any
    length. *)
Lemma worker_drains qu : forall de ws mx lv dr fd wr lf d,
  exists wr' lf',
    Sink.exec (drain_turns (length qu))
      (Sink.mk_state (Output.mk (SafeQueue.mk qu false) de ws mx lv dr true fd)
         (Sink.mk_worker Sink.WTest wr lf) d)
    = Some (Sink.mk_state
              (Output.mk (SafeQueue.mk [] false) de (ws ++ qu) mx lv dr true fd)
              (Sink.mk_worker Sink.WPop wr' lf') d).
Proof.
  induction qu as [|v qu IH]; intros de ws mx lv dr fd wr lf d.
  - unfold drain_turns. cbn -[Z.gtb Z.sub]. rewrite app_nil_r.
    destruct (wr >? 0); [destruct (0 - lf >? FLUSH_SECONDS)|];
      eexists _, _; reflexivity.
  - simpl length. rewrite drain_turns_S, exec_app.
    assert (Hthree : exists wr1 lf1,
      Sink.exec [Sink.Worker 0; Sink.Worker 0; Sink.Worker 0; Sink.Worker 0]
        (Sink.mk_state
           (Output.mk (SafeQueue.mk (v :: qu) false) de ws mx lv dr true fd)
           (Sink.mk_worker Sink.WTest wr lf) d)
      = Some (Sink.mk_state
                (Output.mk (SafeQueue.mk qu false) de (ws ++ [v]) mx lv dr true fd)
                (Sink.mk_worker Sink.WTest wr1 lf1) d)).
    { cbn. eexists _, _. reflexivity. }
    destruct Hthree as (wr1 & lf1 & ->). simpl.
    destruct (IH de (ws ++ [v]) mx lv dr fd wr1 lf1 d) as (wr' & lf' & He).
    rewrite He, <- app_assoc. eexists _, _. reflexivity.
Qed.

(** X4: left alone, the worker of an alive sink writes every queued
    record to the destination, in the order of the queue, empties the
    queue and then waits in [pop]: it has no further step until a record
    is pushed or the queue is told to quit. *)
Theorem X4_worker_drains_then_waits s :
  at_loop_head s ->
  exists s',
    Sink.exec (drain_turns (length (SafeQueue.q (Output.queue_ (Sink.out s))))) s
    = Some s'
    /\ Output.wstream_ (Sink.out s')
       = Output.wstream_ (Sink.out s) ++ SafeQueue.q (Output.queue_ (Sink.out s))
    /\ SafeQueue.q (Output.queue_ (Sink.out s')) = []
    /\ Output.dropped_ (Sink.out s') = Output.dropped_ (Sink.out s)
    /\ Sink.pc (Sink.wk s') = Sink.WPop
    /\ forall now, Sink.step (Sink.Worker now) s' = None.
Proof.
  destruct s as [[[qu xq] de ws mx lv dr al fd] [p wr lf] d].
  unfold at_loop_head. simpl. intros (-> & -> & ->).
  destruct (worker_drains qu de ws mx lv dr fd wr lf d) as (wr' & lf' & He).
  eexists. split; [exact He|]. simpl. repeat split.
Qed.

(** X5: once [alive_] is down, which is the first thing the destructor
    does, a call of [add] does nothing at all: a run with such calls ends
    where the run without them ends. *)
Theorem X5_adds_to_a_dying_sink_do_nothing es : forall s,
  Output.alive_ (Sink.out s) = false ->
  Sink.exec es s = Sink.exec (filter (fun e => negb (is_add e)) es) s.
Proof.
  induction es as [|e es IH]; intros s Ha; [reflexivity|].
  destruct (is_add e) eqn:He.
  - rewrite filter_cons_False by (rewrite He; simpl; auto).
    destruct e as [now|now|now str t0]; try discriminate.
    change (Sink.exec (Sink.Add now str t0 :: es) s)
      with (Sink.step (Sink.Add now str t0) s ≫= Sink.exec es).
    unfold Sink.step. rewrite (add_not_alive _ _ _ _ Ha).
    destruct s as [o w d]. simpl. now apply IH.
  - rewrite filter_cons_True by (rewrite He; simpl; auto).
    change (Sink.step e s ≫= Sink.exec es
            = Sink.step e s ≫= Sink.exec (filter (fun e => negb (is_add e)) es)).
    destruct (Sink.step e s) as [s1|] eqn:Hs; [|reflexivity]. simpl.
    apply IH. now destruct (step_not_alive _ _ _ Ha Hs).
Qed.

(** X6: the join with which [Output::wait] begins is no barrier for the
    destination.  It gets through as soon as the queue is empty: after a
    record was added to an empty sink and popped by the worker, the join
    returns while the record is in the hand of the worker and not in the
    destination; what [wait ()] goes on to flush need not hold it. *)
Theorem X6_join_returns_before_the_write s now str t0 :
  at_loop_head s ->
  SafeQueue.q (Output.queue_ (Sink.out s)) = [] ->
  0 <= Output.max_ (Sink.out s) ->
  exists s1,
    Sink.exec [Sink.Add now str t0; Sink.Worker now; Sink.Worker now] s
    = Some s1
    /\ SafeQueue.join (Output.queue_ (Sink.out s1))
       = Some (Output.queue_ (Sink.out s1))
    /\ Output.wstream_ (Sink.out s1) = Output.wstream_ (Sink.out s)
    /\ Sink.pc (Sink.wk s1) = Sink.WWrite str
    /\ in_flight s1 = in_flight s ++ [str].
Proof.
  destruct s as [[[qu xq] de ws mx lv dr al fd] [p wr lf] d].
  unfold at_loop_head. simpl. intros (-> & -> & ->) -> Hm.
  assert (Hadd : Sink.step (Sink.Add now str t0)
                   (Sink.mk_state
                      (Output.mk (SafeQueue.mk [] false) de ws mx lv dr true fd)
                      (Sink.mk_worker Sink.WTest wr lf) d)
                 = Some (Sink.mk_state
                           (Output.mk (SafeQueue.mk [str] false) de ws mx lv dr
                              true fd)
                           (Sink.mk_worker Sink.WTest wr lf) d)).
  { unfold Sink.step. rewrite add_has_room; [reflexivity | reflexivity |].
    simpl. change (SafeQueue.size (SafeQueue.mk [] false)) with 0. lia. }
  exists (Sink.mk_state
            (Output.mk (SafeQueue.mk [] false) de ws mx lv dr true fd)
            (Sink.mk_worker (Sink.WWrite str) wr lf) d).
  split; [|repeat split; unfold in_flight; simpl;
           now rewrite !app_nil_r].
  change (Sink.step (Sink.Add now str t0)
            (Sink.mk_state
               (Output.mk (SafeQueue.mk [] false) de ws mx lv dr true fd)
               (Sink.mk_worker Sink.WTest wr lf) d)
          ≫= Sink.exec [Sink.Worker now; Sink.Worker now]
          = Some (Sink.mk_state
                    (Output.mk (SafeQueue.mk [] false) de ws mx lv dr true fd)
                    (Sink.mk_worker (Sink.WWrite str) wr lf) d)).
  rewrite Hadd. reflexivity.
Qed.

(** X14: the destructor cannot hang.  Wherever the destructor and the
    worker stand after whatever turns they took, at most eight further
    turns end the teardown: the worker is never left waiting in [pop],
    because [x] is up before the join, and the join finds it returned.
    On the way the destination gains at most the record the worker was
    bound to write. *)
Theorem X14_teardown_completes_from_anywhere now s :
  Sink.consistent s ->
  exists s',
    Sink.exec (rest_of_teardown now s) s = Some s'
    /\ Sink.dt s' = Sink.Destroyed
    /\ Output.wstream_ (Sink.out s') ++ committed (Sink.pc (Sink.wk s'))
       = Output.wstream_ (Sink.out s) ++ committed (Sink.pc (Sink.wk s))
    /\ (length (rest_of_teardown now s) <= 8)%nat.
Proof.
  destruct s as [[[qu xq] de ws mx lv dr al fd] [p wr lf] d].
  unfold Sink.consistent, rest_of_teardown. simpl. intros Hc.
  assert (Hflags : match d with
                   | Sink.AtAlive => True
                   | Sink.AtQuit => al = false
                   | _ => al = false /\ xq = true
                   end) by (destruct d; exact Hc).
  clear Hc.
  destruct d; [clear Hflags | subst al | destruct Hflags as [-> ->] ..];
    destruct p; cbn -[wrap_size_t Z.eqb Z.of_nat];
    repeat match goal with
           | |- context [if ?b then _ else _] => destruct b
           end;
    cbn -[wrap_size_t Z.eqb Z.of_nat];
    eexists; (split; [reflexivity|]); simpl; rewrite ?app_nil_r;
    repeat split; lia.
Qed.

End SinkAtWork.

(** ** The registry in use *)

Section RegistryInUse.
Context `{Libc}.
Implicit Types (l : Log.t) (o : Output.t) (clock : nat -> Z).

(** [LOGL] on a registry without configured sinks, at a level that
    passes. *)
Lemma LOGL_default now clock level file line msg l :
  Log.outputs_ l = [] -> Log.level_ l <= level ->
  Log.outputs_ (fst (Log.LOGL now clock level file line msg l)) = []
  /\ Log.level_ (fst (Log.LOGL now clock level file line msg l)) = Log.level_ l
  /\ Log.default_output_ (fst (Log.LOGL now clock level file line msg l))
     = Output.add (clock 0%nat)
         (Log.ws (Log.ll_ (Log.writer now level file line l)) +:+ msg) now
         (Log.default_output_ l).
Proof.
  intros Ho Hl. rewrite (LOGL_at_or_above _ _ _ _ _ _ _ Hl).
  unfold Log.queue, Log.insert, Log.writer.
  destruct (Log.levelname (Log.names l) level) as [name n]. simpl.
  rewrite Ho. simpl. auto.
Qed.

(** X7: after [setLevel (L2)] a record at any level below [L2] is
    suppressed, the registry stays as [setLevel] left it and no sink is
    called; a level at or above [L2] passes [isLevel]; a level that
    passes lets every higher level pass; [setLevel] leaves the sinks
    alone. *)
Theorem X7_setLevel_suppresses_lower_levels now clock file line msg l L1 L2 :
  (L1 < L2 ->
   Log.LOGL now clock L1 file line msg (Log.setLevel L2 l)
   = (Log.setLevel L2 l, []))
  /\ (L2 <= L1 -> Log.isLevel L1 (Log.setLevel L2 l) = true)
  /\ (Log.isLevel L1 l = true -> L1 <= L2 -> Log.isLevel L2 l = true)
  /\ Log.outputs_ (Log.setLevel L2 l) = Log.outputs_ l
  /\ Log.default_output_ (Log.setLevel L2 l) = Log.default_output_ l.
Proof.
  split; [|split; [|split]].
  - intros Hl. now apply LOGL_below.
  - intros Hl. unfold Log.isLevel. simpl. rewrite Z.geb_leb. now apply Z.leb_le.
  - unfold Log.isLevel. rewrite !Z.geb_leb, !Z.leb_le. lia.
  - split; reflexivity.
Qed.

(** X8: the trigger is stored and never looked at: emitting a record on
    a registry after [setTrigger] calls the same sinks and leaves the
    registry that emitting without it leaves, but for the three stored
    numbers. *)
Theorem X8_setTrigger_changes_no_behaviour now clock level file line msg l
    levelFrom levelTo lookbackCount :
  Log.LOGL now clock level file line msg
    (Log.setTrigger levelFrom levelTo lookbackCount l)
  = (Log.setTrigger levelFrom levelTo lookbackCount
       (fst (Log.LOGL now clock level file line msg l)),
     snd (Log.LOGL now clock level file line msg l))
  /\ Log.isLevel level (Log.setTrigger levelFrom levelTo lookbackCount l)
     = Log.isLevel level l.
Proof.
  split; [|reflexivity].
  unfold Log.LOGL, Log.isLevel. simpl.
  destruct (level >=? Log.level_ l); [|reflexivity].
  unfold Log.queue, Log.insert, Log.writer. simpl.
  destruct (Log.levelname (Log.names l) level) as [name n]. simpl.
  destruct (Log.outputs_ l) as [|o outs]; [reflexivity|].
  destruct (Log.fan_out clock _ now 0 (o :: outs)) as [outs' calls].
  reflexivity.
Qed.

(** X10: the default sink has depth one.  Of two records emitted on a
    registry without configured sinks before the worker of the default
    sink has taken the first, the default sink queues the first and drops
    the second: it counts one drop and remembers the time of the second
    record. *)
Theorem X10_default_sink_keeps_one_record
    now1 now2 clock1 clock2 level1 level2 file1 file2 line1 line2 msg1 msg2 l :
  on_default_sink l ->
  Log.level_ l <= level1 -> Log.level_ l <= level2 ->
  let l2 := fst (Log.LOGL now2 clock2 level2 file2 line2 msg2
                   (fst (Log.LOGL now1 clock1 level1 file1 line1 msg1 l))) in
  SafeQueue.q (Output.queue_ (Log.default_output_ l2))
  = [Log.ws (Log.ll_ (Log.writer now1 level1 file1 line1 l)) +:+ msg1]
  /\ Output.dropped_ (Log.default_output_ l2) = 1
  /\ Output.firstDrop_ (Log.default_output_ l2) = now2.
Proof.
  intros (Ho & Ha & Hm & Hq & Hd) H1 H2. cbv zeta.
  destruct (LOGL_default now1 clock1 level1 file1 line1 msg1 l Ho H1)
    as (Ho1 & Hl1 & Hd1).
  rewrite <- Hl1 in H2.
  destruct (LOGL_default now2 clock2 level2 file2 line2 msg2 _ Ho1 H2)
    as (_ & _ & ->).
  rewrite Hd1.
  rewrite (add_has_room (clock1 0%nat) _ now1 (Log.default_output_ l) Ha)
    by (right; unfold SafeQueue.size; rewrite Hq, Hm; simpl; lia).
  rewrite add_first_drop.
  - simpl. rewrite Hq. auto.
  - repeat split; simpl; try assumption; try lia.
    unfold SafeQueue.size. simpl. rewrite length_app, Hq. simpl. lia.
  - exact Hd.
Qed.

(** X11: on a registry at the level it starts with, INFO, the macros
    [LOGT] and [LOGD] do nothing, and [LOGI] and [LOGE] stage their record
    and hand it to [queue]. *)
Theorem X11_trace_and_debug_are_off_at_the_start now clock file line msg l :
  Log.level_ l = LINFO ->
  Macros.LOGT now clock file line msg l = (l, [])
  /\ Macros.LOGD now clock file line msg l = (l, [])
  /\ Macros.LOGI now clock file line msg l
     = Log.queue clock (Log.insert msg (Log.writer now LINFO file line l))
  /\ Macros.LOGE now clock file line msg l
     = Log.queue clock (Log.insert msg (Log.writer now LERROR file line l)).
Proof.
  intros Hl. unfold Macros.LOGT, Macros.LOGD, Macros.LOGI, Macros.LOGE.
  repeat split.
  - apply LOGL_below. rewrite Hl. reflexivity.
  - apply LOGL_below. rewrite Hl. reflexivity.
  - apply LOGL_at_or_above. rewrite Hl. discriminate.
  - apply LOGL_at_or_above. rewrite Hl. discriminate.
Qed.

Lemma add_all_unbounded rs : forall o,
  Output.alive_ o = true -> Output.max_ o = 0 ->
  add_all rs o
  = Output.set_queue o
      (SafeQueue.mk (SafeQueue.q (Output.queue_ o) ++ map text_of rs)
                    (SafeQueue.x (Output.queue_ o))).
Proof.
  induction rs as [|r rs IH]; intros o Ha Hm.
  - simpl. rewrite app_nil_r. now destruct o as [[qu xq] ? ? ? ? ? ? ?].
  - change (add_all (r :: rs) o)
      with (add_all rs (Output.add (clock_of r) (text_of r) (stamp_of r) o)).
    rewrite add_has_room by (try assumption; now left).
    rewrite IH by assumption. simpl. now rewrite <- app_assoc.
Qed.

(** X12: a buffer size of zero or below never drops.  With zero the sink
    has no bound; a negative [int] is stored in the [size_t] as
    [2^64 + max], a bound no queue reaches: every record of any run of
    calls up to that many goes into the queue, in order, and nothing is
    counted as dropped. *)
Theorem X12_buffer_size_zero_or_negative_never_drops d level max
    (rs : list add_call) :
  (max = 0 ->
   SafeQueue.q (Output.queue_ (add_all rs (Output.make d level max)))
   = map text_of rs
   /\ Output.dropped_ (add_all rs (Output.make d level max)) = 0)
  /\ (- 2 ^ 31 <= max < 0 ->
      Output.max_ (Output.make d level max) = SIZE_MAX + 1 + max
      /\ (Z.of_nat (length rs) <= SIZE_MAX + 1 + max ->
          SafeQueue.q (Output.queue_ (add_all rs (Output.make d level max)))
          = map text_of rs
          /\ Output.dropped_ (add_all rs (Output.make d level max)) = 0)).
Proof.
  split.
  - intros ->. rewrite add_all_unbounded by reflexivity. split; reflexivity.
  - intros Hm.
    assert (Hw : wrap_size_t max = SIZE_MAX + 1 + max).
    { unfold wrap_size_t. symmetry. apply (Z.mod_unique _ _ (-1)).
      - left. unfold SIZE_MAX. lia.
      - lia. }
    split; [exact Hw|]. intros Hlen.
    rewrite fill_phase.
    + split; reflexivity.
    + reflexivity.
    + simpl. rewrite Hw. change (SafeQueue.size SafeQueue.init) with 0. lia.
Qed.

(** X15: a record that passes the global level reaches the destination
    of every configured sink that is alive and has no bound, word for
    word: [LOGL] puts the staged line, prefix and message, behind the
    lines queued there, and the worker of the sink, given its turns,
    writes the queued lines and then this one and leaves the queue
    empty. *)
Theorem X15_emitted_record_reaches_the_destination
    now clock level file line msg l i o :
  Log.level_ l <= level ->
  Log.outputs_ l !! i = Some o ->
  Output.alive_ o = true ->
  SafeQueue.x (Output.queue_ o) = false ->
  Output.max_ o = 0 ->
  exists o' s',
    Log.outputs_ (fst (Log.LOGL now clock level file line msg l)) !! i = Some o'
    /\ Sink.exec (drain_turns (S (length (SafeQueue.q (Output.queue_ o)))))
         (Sink.start o') = Some s'
    /\ Output.wstream_ (Sink.out s')
       = Output.wstream_ o ++ SafeQueue.q (Output.queue_ o)
           ++ [Log.ws (Log.ll_ (Log.writer now level file line l)) +:+ msg]
    /\ SafeQueue.q (Output.queue_ (Sink.out s')) = [].
Proof.
  intros Hl Ho Ha Hx Hm.
  destruct (staged_outputs now level file line msg l) as (Hout & _ & Hws).
  rewrite (LOGL_at_or_above _ _ _ _ _ _ _ Hl).
  rewrite <- Hout in Ho.
  rewrite (queue_lookup clock _ i o Ho), Hws.
  rewrite add_has_room by (try assumption; now left).
  destruct o as [[qu xq] de ws mx lv dr al fd]. simpl in *. subst xq al.
  set (rec := Log.ws (Log.ll_ (Log.writer now level file line l)) +:+ msg).
  destruct (worker_drains (qu ++ [rec]) de ws mx lv dr fd 0 0 Sink.AtAlive)
    as (wr' & lf' & He).
  rewrite length_app, Nat.add_comm in He. simpl in He.
  eexists _, _. split; [reflexivity|]. split; [exact He|]. simpl.
  split; reflexivity.
Qed.

End RegistryInUse.

(** ** The base name of a path *)

Lemma append_String pre c (b : string) :
  pre +:+ String c b = (pre +:+ String c EmptyString) +:+ b.
Proof.
  induction pre as [|a pre IH]; [reflexivity|].
  change (String a (pre +:+ String c b)
          = String a ((pre +:+ String c EmptyString) +:+ b)).
  now f_equal.
Qed.

Lemma last_separator_behind pre c b :
  is_separator c = true ->
  last_separator (pre +:+ String c b) = Some (after_last_separator b).
Proof.
  intros Hc. unfold after_last_separator.
  induction pre as [|a pre IH]; simpl.
  - rewrite Hc. now destruct (last_separator b).
  - now rewrite IH.
Qed.

(** On a path without backslash [basename] is the last component, and
    it holds no separator. *)
Lemma basename_no_backslash s :
  mem "\" s = false ->
  mem "/" (Log.basename s) = false
  /\ mem "\" (Log.basename s) = false
  /\ Log.basename s = after_last_separator s.
Proof.
  intros Hb. destruct (basename_cases s) as (_ & H2 & H3).
  assert (Hs : mem "/" (Log.basename s) = false /\ mem "\" (Log.basename s) = false).
  { destruct (mem "/" s) eqn:Hs.
    - destruct (H2 Hb eq_refl) as (pre & _ & Hm1 & Hm2). auto.
    - rewrite (H3 Hb eq_refl). auto. }
  destruct Hs as [Hs1 Hs2]. repeat split; try assumption.
  now apply basename_last_component.
Qed.

(** X9: [basename] returns an end part of the path that holds no
    backslash.  It may still hold a slash: it is the second application
    that yields the part behind the last path separator of either kind,
    and from there on [basename] changes nothing. *)
Theorem X9_basename_is_an_end_part file :
  (exists pre, file = pre +:+ Log.basename file)
  /\ mem "\" (Log.basename file) = false
  /\ Log.basename (Log.basename file) = after_last_separator file
  /\ Log.basename (Log.basename (Log.basename file))
     = Log.basename (Log.basename file).
Proof.
  destruct (basename_cases file) as (H1 & H2 & H3).
  assert (Hfront : (exists pre, file = pre +:+ Log.basename file)
                   /\ mem "\" (Log.basename file) = false
                   /\ after_last_separator file
                      = after_last_separator (Log.basename file)).
  { destruct (mem "\" file) eqn:Hb.
    - destruct (H1 eq_refl) as (pre & Hf & Hm).
      split; [|split; [exact Hm|]].
      + exists (pre +:+ String "\" EmptyString).
        etransitivity; [exact Hf | apply append_String].
      + unfold after_last_separator at 1. rewrite Hf at 1.
        now rewrite last_separator_behind.
    - destruct (basename_no_backslash file Hb) as (Hs1 & Hs2 & Heq).
      split; [|split; [exact Hs2|]].
      + destruct (mem "/" file) eqn:Hs.
        * destruct (H2 eq_refl eq_refl) as (pre & Hf & _).
          exists (pre +:+ String "/" EmptyString).
          etransitivity; [exact Hf | apply append_String].
        * exists EmptyString. now rewrite (H3 eq_refl eq_refl).
      + rewrite <- Heq. unfold after_last_separator.
        now rewrite (last_separator_None _ Hs1 Hs2). }
  destruct Hfront as (Hpre & Hm & Hlast).
  destruct (basename_no_backslash _ Hm) as (Hs1 & Hs2 & Heq).
  split; [exact Hpre|]. split; [exact Hm|]. split; [congruence|].
  destruct (basename_cases (Log.basename (Log.basename file))) as (_ & _ & H3').
  now apply H3'.
Qed.
(** * The model at work

    The statements above at concrete sinks and registries, with
    [epoch_libc] for the C library. *)

#[local] Existing Instance epoch_libc.

Lemma queue_differs (a b : SafeQueue.t string) :
  SafeQueue.q a <> SafeQueue.q b -> a <> b.
Proof. intros Hn E. apply Hn. now rewrite E. Qed.

(** At level DEBUG the sink of [debug_registry], whose threshold is INFO,
    takes a DEBUG record. *)
Lemma C1_counterexample :
  (exists o o',
     Log.outputs_ debug_registry !! 0%nat = Some o
     /\ Output.level_ o = LINFO
     /\ SafeQueue.q (Output.queue_ o) = []
     /\ Log.outputs_
          (fst (Log.LOGL 0 (fun _ => 0) LDEBUG "main.cpp" 7 "hello" debug_registry))
          !! 0%nat = Some o'
     /\ SafeQueue.q (Output.queue_ o') = ["0 main.cpp:7 DEBUG hello"%string])
  /\ ~ sink_threshold_filters.
Proof.
  assert (Hex : exists o o',
     Log.outputs_ debug_registry !! 0%nat = Some o
     /\ Output.level_ o = LINFO
     /\ SafeQueue.q (Output.queue_ o) = []
     /\ Log.outputs_
          (fst (Log.LOGL 0 (fun _ => 0) LDEBUG "main.cpp" 7 "hello" debug_registry))
          !! 0%nat = Some o'
     /\ SafeQueue.q (Output.queue_ o') = ["0 main.cpp:7 DEBUG hello"%string]).
  { eexists _, _.
    split; [vm_compute; reflexivity|].
    split; [reflexivity|].
    split; [reflexivity|].
    split; [vm_compute; reflexivity|]. reflexivity. }
  split; [exact Hex|].
  destruct Hex as (o & o' & H1 & H2 & H3 & H4 & H5).
  intros Hc.
  destruct (Hc epoch_libc _ _ _ _ _ _ _ 0%nat o o' H1 H4) as [Hge _].
  - apply queue_differs. rewrite H3, H5. discriminate.
  - rewrite H2 in Hge. apply Hge. reflexivity.
Qed.

Lemma C1_witness :
  exists o o',
    Log.outputs_ debug_registry !! 0%nat = Some o
    /\ Log.outputs_
         (fst (Log.LOGL 0 (fun _ => 0) LDEBUG "main.cpp" 7 "hello" debug_registry))
         !! 0%nat = Some o'
    /\ Output.queue_ o' <> Output.queue_ o
    /\ LDEBUG >= Log.level_ debug_registry.
Proof.
  eexists _, _.
  split; [vm_compute; reflexivity|].
  split; [vm_compute; reflexivity|].
  assert (Hn : Output.queue_
                 (Output.mk (SafeQueue.mk ["0 main.cpp:7 DEBUG hello"%string] false)
                    (Output.File "app.log") [] 1000 20 0 true 0)
               <> Output.queue_
                    (Output.mk (SafeQueue.mk [] false)
                       (Output.File "app.log") [] 1000 20 0 true 0))
    by (apply queue_differs; discriminate).
  split; [exact Hn|].
  refine (proj1 (C1_only_the_global_level_filters 0 (fun _ => 0) LDEBUG
                   "main.cpp"%string 7 "hello"%string debug_registry)
            0%nat _ _ _ _ Hn); vm_compute; reflexivity.
Defined.

(** Five records pending, the destructor run in one go: nothing is
    written, and the queue is left with the line that counts them. *)
Lemma C2_counterexample :
  SafeQueue.q (Output.queue_ five_pending)
  = ["r1"; "r2"; "r3"; "r4"; "r5"]%string
  /\ (exists s',
        Sink.exec (teardown 7 (Sink.start five_pending)) (Sink.start five_pending)
        = Some s'
        /\ Sink.dt s' = Sink.Destroyed
        /\ Output.wstream_ (Sink.out s') = []
        /\ SafeQueue.q (Output.queue_ (Sink.out s'))
           = ["7 dropped 5 entries"%string])
  /\ ~ writes_pending_on_destruction.
Proof.
  assert (Hex : exists s',
        Sink.exec (teardown 7 (Sink.start five_pending)) (Sink.start five_pending)
        = Some s'
        /\ Sink.dt s' = Sink.Destroyed
        /\ Output.wstream_ (Sink.out s') = []
        /\ SafeQueue.q (Output.queue_ (Sink.out s'))
           = ["7 dropped 5 entries"%string]).
  { eexists. split; [vm_compute; reflexivity|]. repeat split. }
  split; [vm_compute; reflexivity|]. split; [exact Hex|].
  destruct Hex as (s' & He & Hd & Hw & _).
  intros Hc.
  assert (Ha : Output.alive_ five_pending = true) by (vm_compute; reflexivity).
  assert (Hx : SafeQueue.x (Output.queue_ five_pending) = false)
    by (vm_compute; reflexivity).
  assert (Hn : forallb (fun e => negb (is_add e))
                 (teardown 7 (Sink.start five_pending)) = true)
    by (vm_compute; reflexivity).
  pose proof (Hc epoch_libc five_pending _ s' Ha Hx Hn He Hd) as Hall.
  rewrite Hw in Hall. vm_compute in Hall. discriminate.
Qed.

Lemma C2_witness :
  Sink.dt (Sink.start five_pending) = Sink.AtAlive
  /\ (exists s',
        Sink.exec (teardown 7 (Sink.start five_pending)) (Sink.start five_pending)
        = Some s'
        /\ Sink.dt s' = Sink.Destroyed
        /\ Output.wstream_ (Sink.out s')
           = Output.wstream_ (Sink.out (Sink.start five_pending))
               ++ committed (Sink.pc (Sink.wk (Sink.start five_pending))))
  /\ (exists s',
        Sink.exec [Sink.Dtor 7; Sink.Worker 8; Sink.Dtor 7; Sink.Dtor 7]
          (Sink.start five_pending) = Some s'
        /\ Output.wstream_ (Sink.out s') ++ committed (Sink.pc (Sink.wk s'))
           = Output.wstream_ (Sink.out (Sink.start five_pending))
               ++ committed (Sink.pc (Sink.wk (Sink.start five_pending)))).
Proof.
  assert (Hd : Sink.dt (Sink.start five_pending) = Sink.AtAlive) by reflexivity.
  split; [exact Hd|]. split.
  - destruct (proj2 (C2_destruction_discards_pending (Sink.start five_pending) Hd) 7)
      as (s' & He & Hd' & Hw & _).
    exists s'. split; [exact He|]. split; [exact Hd' | exact Hw].
  - eexists. split; [vm_compute; reflexivity|].
    refine (proj1 (C2_destruction_discards_pending (Sink.start five_pending) Hd)
              7 [Sink.Worker 8; Sink.Dtor 7; Sink.Dtor 7] _ _).
    vm_compute. reflexivity.
Defined.


Lemma C4_witness :
  let s := SafeQueue.mk ["a"; "b"]%string false in
  SafeQueue.quit s = (2, SafeQueue.mk [] true)
  /\ (exists h s',
        SafeQueue.history [SafeQueue.Push "c"%string; SafeQueue.Pop; SafeQueue.Pop]
          (snd (SafeQueue.quit s)) = Some (h, s')
        /\ SafeQueue.q s' = ["c"%string]
        /\ SafeQueue.pop s' = Some (EmptyString, s'))
  /\ SafeQueue.pop s = Some ("a"%string, SafeQueue.mk ["b"%string] false).
Proof.
  cbv zeta.
  destruct (C4_quit_then_pop_sentinel (SafeQueue.mk ["a"; "b"]%string false))
    as (Hq & Hh & Hp).
  split; [exact Hq|]. split.
  - eexists _, _. split; [vm_compute; reflexivity|]. split; [reflexivity|].
    refine (proj2 (proj2 (Hh [SafeQueue.Push "c"%string; SafeQueue.Pop; SafeQueue.Pop]
                            _ _ _))).
    vm_compute. reflexivity.
  - exact (Hp "a"%string ["b"%string] eq_refl eq_refl).
Defined.

(** Level 7 has no name: the lookup yields the empty string. *)
Lemma C5_counterexample :
  ~ In 7 defined_levels
  /\ fst (Log.levelname levelNames_ 7) = EmptyString
  /\ fst (Log.levelname levelNames_ 7) <> "INVALID"%string
  /\ ~ unknown_level_gets_placeholder.
Proof.
  assert (Hn : ~ In 7 defined_levels).
  { intros Hin. vm_compute in Hin.
    repeat (destruct Hin as [Hin|Hin]; [discriminate|]). exact Hin. }
  assert (He : fst (Log.levelname levelNames_ 7) = EmptyString)
    by (vm_compute; reflexivity).
  split; [exact Hn|]. split; [exact He|]. split.
  - rewrite He. discriminate.
  - intros Hc. exact (Hc 7 Hn He).
Qed.

Lemma C5_witness :
  ~ In 7 defined_levels
  /\ levelNames_ !! 7 = None
  /\ Log.levelname levelNames_ 7
     = (EmptyString, <[7 := EmptyString]> levelNames_)
  /\ Log.levelname (snd (Log.levelname levelNames_ 7)) 7
     = (EmptyString, snd (Log.levelname levelNames_ 7))
  /\ snd (Log.levelname levelNames_ 7) !! LINFO = levelNames_ !! LINFO.
Proof.
  assert (Hn : ~ In 7 defined_levels).
  { intros Hin. vm_compute in Hin.
    repeat (destruct Hin as [Hin|Hin]; [discriminate|]). exact Hin. }
  destruct (C5_unknown_level_has_empty_name levelNames_ 7) as (H1 & H2).
  pose proof (H1 Hn) as Hnone. destruct (H2 Hnone) as (Ha & Hb & Hc).
  split; [exact Hn|]. split; [exact Hnone|]. split; [exact Ha|].
  split; [exact Hb|]. apply Hc. discriminate.
Defined.

Lemma C6_witness :
  LDEBUG < Log.level_ Log.init
  /\ Log.LOGL 0 (fun _ => 0) LDEBUG "main.cpp" 7 "hello" Log.init = (Log.init, [])
  /\ Log.level_ debug_registry <= LERROR
  /\ Log.LOGL 0 (fun _ => 0) LERROR "main.cpp" 7 "hello" debug_registry
     = Log.queue (fun _ => 0)
         (Log.insert "hello" (Log.writer 0 LERROR "main.cpp" 7 debug_registry))
  /\ (exists o',
        Log.outputs_
          (fst (Log.LOGL 0 (fun _ => 0) LERROR "main.cpp" 7 "hello" debug_registry))
          !! 0%nat = Some o'
        /\ SafeQueue.q (Output.queue_ o') = ["0 main.cpp:7 ERROR hello"%string])
  /\ Log.level_ Log.init <= LERROR
  /\ Log.outputs_ Log.init = []
  /\ snd (Log.LOGL 0 (fun _ => 0) LERROR "main.cpp" 7 "hello" Log.init)
     = [Log.Default]
  /\ SafeQueue.q (Output.queue_
                    (Log.default_output_
                       (fst (Log.LOGL 0 (fun _ => 0) LERROR "main.cpp" 7 "hello"
                               Log.init))))
     = ["0 main.cpp:7 ERROR hello"%string]
  /\ Log.isLevel LINFO Log.init = true.
Proof.
  assert (H1 : LDEBUG < Log.level_ Log.init) by reflexivity.
  assert (H2 : Log.level_ debug_registry <= LERROR) by discriminate.
  assert (H3 : Log.level_ Log.init <= LERROR) by discriminate.
  assert (H4 : Log.outputs_ Log.init = []) by reflexivity.
  split; [exact H1|].
  split; [exact (proj1 (C6_emit_passes_the_global_level 0 (fun _ => 0) LDEBUG
                          "main.cpp"%string 7 "hello"%string Log.init) H1)|].
  split; [exact H2|].
  destruct (proj1 (proj2 (C6_emit_passes_the_global_level 0 (fun _ => 0) LERROR
                            "main.cpp"%string 7 "hello"%string debug_registry)) H2)
    as (Hq & _ & Hin & _).
  split; [exact Hq|]. split.
  { destruct (Hin 0%nat (Output.make (Output.File "app.log") LINFO DEFAULT_BUF_CNT))
      as (o' & Ho' & Hq').
    - vm_compute. reflexivity.
    - reflexivity.
    - right. reflexivity.
    - exists o'. split; [exact Ho'|]. rewrite Hq'. vm_compute. reflexivity. }
  split; [exact H3|]. split; [exact H4|].
  destruct (proj1 (proj2 (C6_emit_passes_the_global_level 0 (fun _ => 0) LERROR
                            "main.cpp"%string 7 "hello"%string Log.init)) H3)
    as (_ & _ & _ & Hdef).
  destruct (Hdef H4) as (Hcalls & _ & Hroom).
  split; [exact Hcalls|]. split.
  { rewrite Hroom.
    - vm_compute. reflexivity.
    - reflexivity.
    - right. vm_compute. reflexivity. }
  apply (proj2 (proj2 (C6_emit_passes_the_global_level 0 (fun _ => 0) LINFO
                         "main.cpp"%string 7 "hello"%string Log.init))).
  discriminate.
Defined.


(** A path with a slash behind its last backslash: [basename] keeps the
    directory in front of the slash. *)
Lemma C8_counterexample :
  Log.basename "..\src/main.cpp" = "src/main.cpp"%string
  /\ after_last_separator "..\src/main.cpp" = "main.cpp"%string
  /\ Log.ws (Log.ll_ (Log.writer 0 LINFO "..\src/main.cpp" 3 Log.init))
     = "0 src/main.cpp:3 INFO "%string
  /\ ~ prefix_with_last_component.
Proof.
  split; [reflexivity|]. split; [reflexivity|].
  split; [vm_compute; reflexivity|].
  intros Hc.
  specialize (Hc epoch_libc 0 LINFO "..\src/main.cpp"%string 3 Log.init).
  vm_compute in Hc. discriminate.
Qed.

Lemma C8_witness :
  Log.ws (Log.ll_ (Log.writer 0 LWARN "C:\proj\main.cpp" 12 Log.init))
  = "0 main.cpp:12 WARN "%string
  /\ mem "\" "C:\proj\main.cpp" = true
  /\ (exists pre, "C:\proj\main.cpp"%string
                  = pre +:+ String "\" (Log.basename "C:\proj\main.cpp"))
  /\ mem "\" "src/log/main.cpp" = false /\ mem "/" "src/log/main.cpp" = true
  /\ (exists pre, "src/log/main.cpp"%string
                  = pre +:+ String "/" (Log.basename "src/log/main.cpp"))
  /\ mem "\" "main.cpp" = false /\ mem "/" "main.cpp" = false
  /\ Log.basename "main.cpp" = "main.cpp"%string
  /\ mem "/" (Log.basename "src/log/main.cpp") = false
  /\ Log.basename "src/log/main.cpp" = after_last_separator "src/log/main.cpp".
Proof.
  split.
  - rewrite (proj1 (C8_prefix_of_a_record 0 LWARN "C:\proj\main.cpp"%string 12 Log.init)).
    vm_compute. reflexivity.
  - assert (Hb : mem "\" "C:\proj\main.cpp" = true) by reflexivity.
    assert (Hs1 : mem "\" "src/log/main.cpp" = false) by reflexivity.
    assert (Hs2 : mem "/" "src/log/main.cpp" = true) by reflexivity.
    assert (Hp1 : mem "\" "main.cpp" = false) by reflexivity.
    assert (Hp2 : mem "/" "main.cpp" = false) by reflexivity.
    assert (Hl : mem "/" (Log.basename "src/log/main.cpp") = false) by reflexivity.
    split; [exact Hb|]. split.
    { destruct (proj1 (proj2 (proj2 (C8_prefix_of_a_record 0 LWARN
                  "C:\proj\main.cpp"%string 12 Log.init))) Hb) as (pre & Hpre & _).
      exists pre. exact Hpre. }
    split; [exact Hs1|]. split; [exact Hs2|]. split.
    { destruct (proj1 (proj2 (proj2 (proj2 (C8_prefix_of_a_record 0 LWARN
                  "src/log/main.cpp"%string 12 Log.init)))) Hs1 Hs2)
        as (pre & Hpre & _).
      exists pre. exact Hpre. }
    split; [exact Hp1|]. split; [exact Hp2|]. split.
    { exact (proj1 (proj2 (proj2 (proj2 (proj2 (C8_prefix_of_a_record 0 LWARN
                  "main.cpp"%string 12 Log.init))))) Hp1 Hp2). }
    split; [exact Hl|].
    exact (proj2 (proj2 (proj2 (proj2 (proj2 (C8_prefix_of_a_record 0 LWARN
                  "src/log/main.cpp"%string 12 Log.init))))) Hl).
Defined.

Lemma C9_witness :
  (let s := snd (SafeQueue.quit (SafeQueue.mk ["a"%string] false)) in
   SafeQueue.x s = true
   /\ SafeQueue.q (SafeQueue.push "late"%string s) = ["late"%string]
   /\ SafeQueue.pop (SafeQueue.push "late"%string s)
      = Some (EmptyString, SafeQueue.push "late"%string s)
   /\ exists h s',
        SafeQueue.history
          [SafeQueue.Push "late"%string; SafeQueue.Pop; SafeQueue.Size; SafeQueue.Pop] s
        = Some (h, s')
        /\ SafeQueue.q s' = ["late"%string])
  /\ Sink.consistent about_to_log
  /\ Sink.dt about_to_log = Sink.AtLog
  /\ Output.dropped_ (Sink.out about_to_log) <> 0
  /\ exists st',
       Sink.exec [Sink.Dtor 7; Sink.Worker 8; Sink.Worker 8; Sink.Worker 8;
                  Sink.Dtor 9; Sink.Add 9 "r9" 9]
         about_to_log = Some st'
       /\ SafeQueue.q (Output.queue_ (Sink.out st')) = ["7 dropped 5 entries"%string]
       /\ Output.wstream_ (Sink.out st') = ["r0"%string].
Proof.
  destruct (C9_pushed_after_quit_is_never_popped (T := string))
    as (Hpush & Hhist & Hdtor).
  split.
  - cbv zeta.
    assert (Hx : SafeQueue.x (snd (SafeQueue.quit (SafeQueue.mk ["a"%string] false)))
                 = true) by reflexivity.
    split; [exact Hx|].
    destruct (Hpush _ "late"%string Hx) as [Hq Hp].
    split; [exact Hq|]. split; [exact Hp|].
    destruct (Hhist _ [SafeQueue.Push "late"%string; SafeQueue.Pop; SafeQueue.Size;
                       SafeQueue.Pop] Hx eq_refl) as (h & s' & Hh & _ & Hq').
    exists h, s'. split; [exact Hh | exact Hq'].
  - assert (Hc : Sink.consistent about_to_log) by (split; reflexivity).
    assert (Hd : Sink.dt about_to_log = Sink.AtLog) by reflexivity.
    assert (Hn : Output.dropped_ (Sink.out about_to_log) <> 0) by discriminate.
    split; [exact Hc|]. split; [exact Hd|]. split; [exact Hn|].
    eexists. split; [vm_compute; reflexivity|].
    refine (Hdtor about_to_log 7
              [Sink.Worker 8; Sink.Worker 8; Sink.Worker 8; Sink.Dtor 9;
               Sink.Add 9 "r9"%string 9] _ Hc Hd Hn _).
    vm_compute. reflexivity.
Defined.

Lemma C10_witness :
  let l := Log.insert "hello"
             (Log.writer 0 LINFO "main.cpp" 7
                (Log.addOutput (Output.File "app.log") LDEBUG 0 Log.init)) in
  exists o,
    Log.outputs_ l !! 0%nat = Some o
    /\ Output.alive_ o = true /\ Output.max_ o = 0
    /\ (exists o2,
          Log.outputs_ (fst (Log.queue (fun _ => 1) (fst (Log.queue (fun _ => 0) l))))
            !! 0%nat = Some o2
          /\ SafeQueue.q (Output.queue_ o2)
             = ["0 main.cpp:7 INFO hello"; "0 main.cpp:7 INFO hello"]%string)
    /\ fst (Log.queue (fun _ => 1) (fst (Log.queue (fun _ => 0) l)))
       <> fst (Log.queue (fun _ => 0) l).
Proof.
  cbv zeta. eexists.
  split; [vm_compute; reflexivity|].
  split; [reflexivity|]. split; [reflexivity|].
  destruct (proj1 (proj2 (proj2 (C10_queue_keeps_the_staged_record
              (fun _ => 0) (fun _ => 1)
              (Log.insert "hello"
                 (Log.writer 0 LINFO "main.cpp" 7
                    (Log.addOutput (Output.File "app.log") LDEBUG 0 Log.init))))))
              0%nat (Output.make (Output.File "app.log") LDEBUG 0))
    as ((o1 & o2 & _ & _ & H2 & Hq2) & Hne).
  - vm_compute. reflexivity.
  - reflexivity.
  - reflexivity.
  - split; [|exact Hne]. exists o2. split; [exact H2|]. exact Hq2.
Defined.

(** ** The further properties at work *)

Lemma X1_witness :
  SafeQueue.x (SafeQueue.mk ["a"%string] false) = false
  /\ SafeQueue.history
       (map SafeQueue.Push ["b"; "c"]%string
          ++ repeat SafeQueue.Pop (length (["a"%string] ++ ["b"%string; "c"%string])))
       (SafeQueue.mk ["a"%string] false)
     = Some ([(SafeQueue.Push "b", SafeQueue.Unit);
              (SafeQueue.Push "c", SafeQueue.Unit);
              (SafeQueue.Pop, SafeQueue.Popped "a");
              (SafeQueue.Pop, SafeQueue.Popped "b");
              (SafeQueue.Pop, SafeQueue.Popped "c")]%string,
             SafeQueue.mk [] false).
Proof.
  assert (Hx : SafeQueue.x (SafeQueue.mk ["a"%string] false) = false)
    by reflexivity.
  split; [exact Hx|].
  exact (proj1 (X1_queue_is_fifo (SafeQueue.mk ["a"%string] false)
                  ["b"; "c"]%string Hx)).
Defined.

Lemma X2_witness :
  unbounded open_sink
  /\ exists s',
       Sink.exec [Sink.Add 0 "a" 0; Sink.Worker 0; Sink.Add 1 "b" 1;
                  Sink.Worker 1; Sink.Worker 1] open_sink = Some s'
       /\ in_flight s' = ["a"; "b"]%string
       /\ Output.dropped_ (Sink.out s') = 0.
Proof.
  assert (Hu : unbounded open_sink) by (repeat split; vm_compute; reflexivity).
  split; [exact Hu|].
  eexists. split; [vm_compute; reflexivity|].
  refine (X2_unbounded_sink_loses_nothing
            [Sink.Add 0 "a"%string 0; Sink.Worker 0; Sink.Add 1 "b"%string 1;
             Sink.Worker 1; Sink.Worker 1] open_sink _ Hu _ _);
    vm_compute; reflexivity.
Defined.

Lemma X3_witness :
  unbounded open_sink
  /\ Sink.dt open_sink = Sink.AtAlive
  /\ exists s',
       Sink.exec [Sink.Add 0 "a" 0; Sink.Worker 0; Sink.Worker 0; Sink.Worker 0;
                  Sink.Add 1 "b" 1; Sink.Dtor 2; Sink.Add 3 "c" 3; Sink.Dtor 2]
         open_sink = Some s'
       /\ Output.wstream_ (Sink.out s') `prefix_of` ["a"; "b"; "c"]%string.
Proof.
  assert (Hu : unbounded open_sink) by (repeat split; vm_compute; reflexivity).
  assert (Hd : Sink.dt open_sink = Sink.AtAlive) by reflexivity.
  split; [exact Hu|]. split; [exact Hd|].
  eexists. split; [vm_compute; reflexivity|].
  refine (X3_written_lines_are_a_front_part
            [Sink.Add 0 "a"%string 0; Sink.Worker 0; Sink.Worker 0; Sink.Worker 0;
             Sink.Add 1 "b"%string 1; Sink.Dtor 2; Sink.Add 3 "c"%string 3;
             Sink.Dtor 2] open_sink _ Hu Hd _).
  vm_compute. reflexivity.
Defined.

Lemma X4_witness :
  at_loop_head (Sink.start five_pending)
  /\ exists s',
       Sink.exec (drain_turns 5) (Sink.start five_pending) = Some s'
       /\ Output.wstream_ (Sink.out s') = ["r1"; "r2"; "r3"; "r4"; "r5"]%string
       /\ SafeQueue.q (Output.queue_ (Sink.out s')) = []
       /\ Sink.step (Sink.Worker 9) s' = None.
Proof.
  assert (Hh : at_loop_head (Sink.start five_pending))
    by (repeat split; vm_compute; reflexivity).
  split; [exact Hh|].
  destruct (X4_worker_drains_then_waits (Sink.start five_pending) Hh)
    as (s' & He & Hw & Hq & _ & _ & Hb).
  exists s'. split; [exact He|]. split; [exact Hw|]. split; [exact Hq|].
  exact (Hb 9).
Defined.

Lemma X5_witness :
  Output.alive_ (Sink.out about_to_log) = false
  /\ Sink.exec [Sink.Add 9 "r9" 9; Sink.Worker 8; Sink.Add 9 "r10" 9] about_to_log
     = Sink.exec [Sink.Worker 8] about_to_log.
Proof.
  assert (Ha : Output.alive_ (Sink.out about_to_log) = false) by reflexivity.
  split; [exact Ha|].
  exact (X5_adds_to_a_dying_sink_do_nothing
           [Sink.Add 9 "r9"%string 9; Sink.Worker 8; Sink.Add 9 "r10"%string 9]
           about_to_log Ha).
Defined.

Lemma X6_witness :
  at_loop_head open_sink
  /\ SafeQueue.q (Output.queue_ (Sink.out open_sink)) = []
  /\ 0 <= Output.max_ (Sink.out open_sink)
  /\ exists s1,
       Sink.exec [Sink.Add 0 "a" 0; Sink.Worker 0; Sink.Worker 0] open_sink
       = Some s1
       /\ SafeQueue.join (Output.queue_ (Sink.out s1))
          = Some (Output.queue_ (Sink.out s1))
       /\ Output.wstream_ (Sink.out s1) = []
       /\ Sink.pc (Sink.wk s1) = Sink.WWrite "a".
Proof.
  assert (Hh : at_loop_head open_sink) by (repeat split; vm_compute; reflexivity).
  assert (Hq : SafeQueue.q (Output.queue_ (Sink.out open_sink)) = [])
    by reflexivity.
  assert (Hm : 0 <= Output.max_ (Sink.out open_sink))
    by (vm_compute; discriminate).
  split; [exact Hh|]. split; [exact Hq|]. split; [exact Hm|].
  destruct (X6_join_returns_before_the_write open_sink 0 "a"%string 0 Hh Hq Hm)
    as (s1 & He & Hj & Hws & Hpc & _).
  exists s1. split; [exact He|]. split; [exact Hj|]. split; [exact Hws | exact Hpc].
Defined.

Lemma X7_witness :
  LDEBUG < LWARN
  /\ Log.LOGL 0 (fun _ => 0) LDEBUG "main.cpp" 7 "hello" (Log.setLevel LWARN Log.init)
     = (Log.setLevel LWARN Log.init, [])
  /\ LWARN <= LERROR
  /\ Log.isLevel LERROR (Log.setLevel LWARN Log.init) = true.
Proof.
  assert (H1 : LDEBUG < LWARN) by reflexivity.
  assert (H2 : LWARN <= LERROR) by discriminate.
  split; [exact H1|].
  split; [exact (proj1 (X7_setLevel_suppresses_lower_levels 0 (fun _ => 0)
                          "main.cpp"%string 7 "hello"%string Log.init LDEBUG LWARN)
                   H1)|].
  split; [exact H2|].
  exact (proj1 (proj2 (X7_setLevel_suppresses_lower_levels 0 (fun _ => 0)
                         "main.cpp"%string 7 "hello"%string Log.init LERROR LWARN))
           H2).
Defined.

Lemma X10_witness :
  on_default_sink Log.init
  /\ Log.level_ Log.init <= LINFO /\ Log.level_ Log.init <= LERROR
  /\ (let l2 := fst (Log.LOGL 2 (fun _ => 2) LERROR "b.cpp" 9 "two"
                       (fst (Log.LOGL 1 (fun _ => 1) LINFO "a.cpp" 7 "one"
                               Log.init))) in
      SafeQueue.q (Output.queue_ (Log.default_output_ l2))
      = ["1 a.cpp:7 INFO one"%string]
      /\ Output.dropped_ (Log.default_output_ l2) = 1
      /\ Output.firstDrop_ (Log.default_output_ l2) = 2).
Proof.
  assert (Hd : on_default_sink Log.init) by (repeat split; vm_compute; reflexivity).
  assert (H1 : Log.level_ Log.init <= LINFO) by discriminate.
  assert (H2 : Log.level_ Log.init <= LERROR) by discriminate.
  split; [exact Hd|]. split; [exact H1|]. split; [exact H2|].
  exact (X10_default_sink_keeps_one_record 1 2 (fun _ => 1) (fun _ => 2)
           LINFO LERROR "a.cpp"%string "b.cpp"%string 7 9
           "one"%string "two"%string Log.init Hd H1 H2).
Defined.

Lemma X11_witness :
  Log.level_ Log.init = LINFO
  /\ Macros.LOGT 0 (fun _ => 0) "main.cpp" 7 "hello" Log.init = (Log.init, [])
  /\ Macros.LOGD 0 (fun _ => 0) "main.cpp" 7 "hello" Log.init = (Log.init, [])
  /\ snd (Macros.LOGI 0 (fun _ => 0) "main.cpp" 7 "hello" Log.init) = [Log.Default].
Proof.
  assert (Hl : Log.level_ Log.init = LINFO) by reflexivity.
  destruct (X11_trace_and_debug_are_off_at_the_start 0 (fun _ => 0)
              "main.cpp"%string 7 "hello"%string Log.init Hl)
    as (Ht & Hd & Hi & _).
  split; [exact Hl|]. split; [exact Ht|]. split; [exact Hd|].
  rewrite Hi. reflexivity.
Defined.

Lemma X12_witness :
  (let rs := [mk_add 0 "a" 0; mk_add 1 "b" 1] in
   SafeQueue.q (Output.queue_
                  (add_all rs (Output.make (Output.File "app.log") LDEBUG 0)))
   = ["a"; "b"]%string)
  /\ - 2 ^ 31 <= -1 < 0
  /\ Output.max_ (Output.make (Output.File "app.log") LDEBUG (-1)) = SIZE_MAX
  /\ (let rs := [mk_add 0 "a" 0; mk_add 1 "b" 1] in
      Z.of_nat (length rs) <= SIZE_MAX + 1 + -1
      /\ SafeQueue.q (Output.queue_
                        (add_all rs (Output.make (Output.File "app.log") LDEBUG (-1))))
         = ["a"; "b"]%string).
Proof.
  assert (Hr : - 2 ^ 31 <= -1 < 0) by lia.
  assert (Hl : Z.of_nat (length [mk_add 0 "a" 0; mk_add 1 "b" 1])
               <= SIZE_MAX + 1 + -1) by (vm_compute; discriminate).
  split; [|split; [exact Hr|split]].
  - exact (proj1 (proj1 (X12_buffer_size_zero_or_negative_never_drops
                           (Output.File "app.log") LDEBUG 0
                           [mk_add 0 "a" 0; mk_add 1 "b" 1]) eq_refl)).
  - exact (proj1 (proj2 (X12_buffer_size_zero_or_negative_never_drops
                           (Output.File "app.log") LDEBUG (-1) []) Hr)).
  - cbv zeta. split; [exact Hl|].
    exact (proj1 (proj2 (proj2 (X12_buffer_size_zero_or_negative_never_drops
                                  (Output.File "app.log") LDEBUG (-1)
                                  [mk_add 0 "a" 0; mk_add 1 "b" 1]) Hr) Hl)).
Defined.

Lemma X14_witness :
  Sink.consistent about_to_log
  /\ exists s',
       Sink.exec (rest_of_teardown 7 about_to_log) about_to_log = Some s'
       /\ Sink.dt s' = Sink.Destroyed
       /\ Output.wstream_ (Sink.out s') ++ committed (Sink.pc (Sink.wk s'))
          = Output.wstream_ (Sink.out about_to_log)
              ++ committed (Sink.pc (Sink.wk about_to_log)).
Proof.
  assert (Hc : Sink.consistent about_to_log) by (split; reflexivity).
  split; [exact Hc|].
  destruct (X14_teardown_completes_from_anywhere 7 about_to_log Hc)
    as (s' & He & Hd & Hw & _).
  exists s'. split; [exact He|]. split; [exact Hd | exact Hw].
Defined.

Lemma X15_witness :
  Log.level_ (Log.addOutput (Output.File "app.log") LDEBUG 0 Log.init) <= LERROR
  /\ exists s',
       Sink.exec (drain_turns 1)
         (Sink.start
            (Output.mk (SafeQueue.mk ["0 main.cpp:7 ERROR disk full"%string] false)
               (Output.File "app.log") [] 0 LDEBUG 0 true 0)) = Some s'
       /\ Output.wstream_ (Sink.out s') = ["0 main.cpp:7 ERROR disk full"%string].
Proof.
  assert (Hl : Log.level_ (Log.addOutput (Output.File "app.log") LDEBUG 0 Log.init)
               <= LERROR) by discriminate.
  split; [exact Hl|].
  destruct (X15_emitted_record_reaches_the_destination 0 (fun _ => 0) LERROR
              "main.cpp"%string 7 "disk full"%string
              (Log.addOutput (Output.File "app.log") LDEBUG 0 Log.init) 0%nat
              (Output.make (Output.File "app.log") LDEBUG 0) Hl)
    as (o' & s' & Ho' & He & Hw & _).
  - vm_compute. reflexivity.
  - reflexivity.
  - reflexivity.
  - reflexivity.
  - assert (Heq : o' = Output.mk
                         (SafeQueue.mk ["0 main.cpp:7 ERROR disk full"%string] false)
                         (Output.File "app.log") [] 0 LDEBUG 0 true 0).
    { vm_compute in Ho'. now invert Ho'. }
    subst o'. exists s'. split; [exact He | exact Hw].
Defined.
